(** * mycutils: the frame timer and the raw-mode line editor

    A shallow embedding of the timer functions ([check_timer],
    [start_timer]) and of the line editor ([scans], [scanc_nowait] and the
    string helpers they call) of the mycutils library, followed by the
    properties established about them.

    The repository carries two copies of the library:
    - [src/mycutils.c], embedded in module [Lib1];
    - the copy bundled with the example program in [src/main.c], embedded
      in module [Lib2].
    Code that is identical in both copies ([scanc_nowait]) is embedded
    once.  What the editor shows is recorded as the sequence of its output
    calls: the texts it prints on [stdout] and the [tput] commands it runs
    through [system].

    Data model: LP64 (x86-64 Linux, the platform of <termios.h>), so
    [long], [time_t] and [size_t] are 64 bits wide and [unsigned] and
    [tcflag_t] are 32 bits wide.  Integers are [Z]; wrap-around of unsigned
    arithmetic is written out with [mod]; overflow of signed arithmetic,
    which C leaves undefined, is reported as a fault. *)

From Stdlib Require Import ZArith Ascii String Bool Lia List.
Import ListNotations.

#[local] Open Scope Z_scope.

(** ** Outcomes of a call *)

Inductive fault : Type :=
| SignedOverflow   (* a signed operation left the range of its type *)
| Indeterminate    (* an object was read before anything was stored in it *)
| OutOfBounds      (* an access outside the allocated object *)
| BadFormat.       (* a conversion without a matching argument *)

(** A call either returns a value, ends the process with a status, has no
    defined behaviour, loops for ever, or waits for input that the script
    of the environment does not provide. *)
Inductive result (A : Type) : Type :=
| Ok (a : A)
| Exit (status : Z) (stderr : list string)
| Fault (f : fault)
| Diverges
| Blocked.

Arguments Ok {A} a.
Arguments Exit {A} status stderr.
Arguments Fault {A} f.
Arguments Diverges {A}.
Arguments Blocked {A}.

Definition bind {A B : Type} (m : result A) (k : A -> result B) : result B :=
  match m with
  | Ok a => k a
  | Exit st log => Exit st log
  | Fault f => Fault f
  | Diverges => Diverges
  | Blocked => Blocked
  end.

Notation "x <- m ;; k" := (bind m (fun x => k))
  (at level 61, m at next level, right associativity).
Notation "' pat <- m ;; k" := (bind m (fun x => match x with pat => k end))
  (at level 61, pat pattern, m at next level, right associativity).

Definition EXIT_SUCCESS : Z := 0.
Definition EXIT_FAILURE : Z := 1.

(** ** Machine integers *)

Module Int.

Definition LONG_MIN : Z := - 2 ^ 63.
Definition LONG_MAX : Z := 2 ^ 63 - 1.
Definition INT_MAX : Z := 2 ^ 31 - 1.
Definition PTRDIFF_MAX : Z := 2 ^ 63 - 1.

Definition in_long (z : Z) : bool := (LONG_MIN <=? z) && (z <=? LONG_MAX).

(** Conversion to [uint64_t] / [size_t], and to [unsigned] / [tcflag_t]. *)
Definition to_uint64 (z : Z) : Z := z mod 2 ^ 64.
Definition to_unsigned (z : Z) : Z := z mod 2 ^ 32.

Definition is_uint64 (z : Z) : Prop := 0 <= z < 2 ^ 64.

(** Signed 64-bit arithmetic. *)
Definition long_of (z : Z) : result Z :=
  if in_long z then Ok z else Fault SignedOverflow.

Definition sub_long (a b : Z) : result Z := long_of (a - b).
Definition add_long (a b : Z) : result Z := long_of (a + b).
Definition mul_long (a b : Z) : result Z := long_of (a * b).

(** Signed 32-bit addition, as in [vsnprintf(...) + 1]. *)
Definition INT_MIN : Z := - 2 ^ 31.

Definition add_int (a b : Z) : result Z :=
  if (INT_MIN <=? a + b) && (a + b <=? INT_MAX) then Ok (a + b)
  else Fault SignedOverflow.

End Int.

(** ** Characters, allocated blocks and C strings *)

Definition NUL : ascii := "000"%char.
Definition NEWLINE : ascii := "010"%char.
Definition BACKSPACE : ascii := "127"%char.

(** A block obtained from [malloc]: one cell per byte, [None] while
    nothing has been stored in it.  The block without cells also stands
    for the null pointer and for a zero-sized allocation: none of them has
    a cell that may be accessed.  [free] has no effect on the model. *)
Definition buffer : Type := list (option ascii).

(** [malloc(n)]; requests above [PTRDIFF_MAX] are refused. *)
Definition malloc (n : Z) : buffer :=
  if n <=? Int.PTRDIFF_MAX then repeat None (Z.to_nat n) else [].

Definition size (b : buffer) : Z := Z.of_nat (length b).

(** [b[i]] as an rvalue. *)
Definition load (b : buffer) (i : Z) : result ascii :=
  if (0 <=? i) && (i <? size b) then
    match nth (Z.to_nat i) b None with
    | Some c => Ok c
    | None => Fault Indeterminate
    end
  else Fault OutOfBounds.

(** [b[i] = c]. *)
Definition store (b : buffer) (i : Z) (c : ascii) : result buffer :=
  if (0 <=? i) && (i <? size b) then
    Ok (firstn (Z.to_nat i) b ++ Some c :: skipn (S (Z.to_nat i)) b)
  else Fault OutOfBounds.

(** Stores the bytes [cs] at [b[i]], [b[i+1]], ... *)
Fixpoint store_bytes (b : buffer) (i : Z) (cs : list ascii) : result buffer :=
  match cs with
  | [] => Ok b
  | c :: cs' => b' <- store b i c ;; store_bytes b' (i + 1) cs'
  end.

(** The characters of the C string that starts at [b[0]], as [strlen],
    [strcpy] and the [%s] conversion read them: up to the first NUL. *)
Fixpoint cstring (b : buffer) : result (list ascii) :=
  match b with
  | [] => Fault OutOfBounds
  | None :: _ => Fault Indeterminate
  | Some c :: rest =>
      if Ascii.eqb c NUL then Ok [] else s <- cstring rest ;; Ok (c :: s)
  end.

Definition strlen (b : buffer) : result Z :=
  s <- cstring b ;; Ok (Z.of_nat (length s)).

(** [strcpy(dst, src)]: the characters of [src] and the terminating NUL. *)
Definition strcpy (dst src : buffer) : result buffer :=
  s <- cstring src ;; store_bytes dst 0 (s ++ [NUL]).

(** A string literal or any other well-formed constant string. *)
Definition literal (s : string) : buffer :=
  map Some (list_ascii_of_string s ++ [NUL]).

(** The block that holds exactly the characters [s] and the NUL. *)
Definition holding (s : list ascii) : buffer := map Some (s ++ [NUL]).

(** *** Formatted output: the conversions the editor uses *)

Inductive arg : Type :=
| ArgS (b : buffer)   (* a [char*] for [%s] *)
| ArgC (c : ascii)    (* a [char] for [%c] *)
| ArgD (z : Z).       (* an [int] for [%d] *)

(** The decimal digits [%d] produces for an [int]: at most ten of them,
    after a minus sign for a negative number. *)
Definition digit (n : Z) : ascii :=
  nth (Z.to_nat n) ["0"; "1"; "2"; "3"; "4"; "5"; "6"; "7"; "8"; "9"]%char
      "0"%char.

Fixpoint digits (fuel : nat) (n : Z) (acc : list ascii) : list ascii :=
  match fuel with
  | O => acc
  | S fuel' =>
      let acc := digit (n mod 10) :: acc in
      if n / 10 =? 0 then acc else digits fuel' (n / 10) acc
  end.

Definition decimal (z : Z) : list ascii :=
  if z <? 0 then "-"%char :: digits 10 (- z) [] else digits 10 z [].

(** The bytes [vsnprintf] produces for a format made of [%s], [%c], [%d]
    and ordinary characters.  A NUL passed to [%c] is produced like any
    other byte. *)
Fixpoint format (fmt : list ascii) (args : list arg) : result (list ascii) :=
  match fmt with
  | [] => Ok []
  | c :: fmt1 =>
      if Ascii.eqb c "%"%char then
        match fmt1 with
        | [] => Fault BadFormat
        | d :: fmt2 =>
            if Ascii.eqb d "s"%char then
              match args with
              | ArgS b :: args' =>
                  s <- cstring b ;; r <- format fmt2 args' ;; Ok (s ++ r)
              | _ => Fault BadFormat
              end
            else if Ascii.eqb d "c"%char then
              match args with
              | ArgC x :: args' => r <- format fmt2 args' ;; Ok (x :: r)
              | _ => Fault BadFormat
              end
            else if Ascii.eqb d "d"%char then
              match args with
              | ArgD z :: args' =>
                  r <- format fmt2 args' ;; Ok (decimal z ++ r)
              | _ => Fault BadFormat
              end
            else Fault BadFormat
        end
      else r <- format fmt1 args ;; Ok (c :: r)
  end.

(** [vsnprintf(NULL, 0, fmt, ...)]: the number of bytes the output needs,
    or -1 when that number does not fit [int]. *)
Definition vsnprintf_size (out : list ascii) : Z :=
  let n := Z.of_nat (length out) in
  if n <=? Int.INT_MAX then n else -1.

(** [vsnprintf(s, bytes, fmt, ...)]: at most [bytes - 1] bytes of the
    output, then a NUL; nothing when [bytes] is 0 or the output does not
    fit [int]. *)
Definition vsnprintf (s : buffer) (bytes : Z) (out : list ascii)
  : result buffer :=
  if (bytes =? 0) || (vsnprintf_size out <? 0) then Ok s
  else store_bytes s 0 (firstn (Z.to_nat (bytes - 1)) out ++ [NUL]).

(** The body of [sfmt] of [src/main.c]: a block of exactly the size the
    output needs, filled by [vsnprintf].  The terminator is added to the
    size as [+ sizeof(char)], in [size_t].  The result is the new value of
    [*sp]. *)
Definition format_alloc (fmt : string) (args : list arg) : result buffer :=
  out <- format (list_ascii_of_string fmt) args ;;
  let bytes := Int.to_uint64 (vsnprintf_size out + 1) in
  let sp := malloc bytes in
  vsnprintf sp bytes out.

(** The string [fprintf_clear] of [src/main.c] builds, in the same way
    as [sfmt], before it measures it with [strlen] and prints it with
    [%s]. *)
Definition format_show (fmt : string) (args : list arg)
  : result (list ascii) :=
  prompt <- format_alloc fmt args ;; cstring prompt.

(** ** The terminal *)

(** [struct termios].  [c_cc] has [NCCS] entries. *)
Record termios : Type := mk_termios {
  c_iflag : Z;
  c_oflag : Z;
  c_cflag : Z;
  c_lflag : Z;
  c_line : Z;
  c_cc : list Z;
  c_ispeed : Z;
  c_ospeed : Z
}.

(** The values of <termios.h> on Linux. *)
Definition NCCS : nat := 32.
Definition VTIME : nat := 5.
Definition VMIN : nat := 6.
Definition ICANON : Z := 2.
Definition ECHO : Z := 8.

(** [struct termios old = {0}]. *)
Definition termios_zero : termios :=
  mk_termios 0 0 0 0 0 (repeat 0 NCCS) 0 0.

Definition set_lflag (t : termios) (v : Z) : termios :=
  mk_termios (c_iflag t) (c_oflag t) (c_cflag t) v (c_line t) (c_cc t)
             (c_ispeed t) (c_ospeed t).

(** [t.c_cc[i] = v], for [i] below [NCCS]. *)
Definition set_cc (t : termios) (i : nat) (v : Z) : termios :=
  mk_termios (c_iflag t) (c_oflag t) (c_cflag t) (c_lflag t) (c_line t)
             (firstn i (c_cc t) ++ v :: skipn (S i) (c_cc t))
             (c_ispeed t) (c_ospeed t).

(** [~flag] converted to [tcflag_t]. *)
Definition tc_not (flag : Z) : Z := Int.to_unsigned (Z.lnot flag).

(** What the single [read(0, &buf, 1)] of one call does. *)
Inductive read_result : Type :=
| ReadByte (c : ascii)   (* returns 1 *)
| ReadEOF                (* returns 0, nothing stored *)
| ReadError.             (* returns -1, nothing stored *)

(** The behaviour of the environment during one call of [scanc_nowait]:
    whether [tcgetattr] and the two [tcsetattr] succeed, and what [read]
    does. *)
Record syscalls : Type := mk_syscalls {
  tcgetattr_ok : bool;
  tcsetattr_now_ok : bool;
  read_res : read_result;
  tcsetattr_drain_ok : bool
}.

(** A keystroke delivered while every terminal call succeeds. *)
Definition key (c : ascii) : syscalls := mk_syscalls true true (ReadByte c) true.
Definition keys (s : list ascii) : list syscalls := map key s.

(** What the editor does to show a line, in the order of the calls: a
    text handed to [fprintf] on [stdout], or a command handed to [system],
    whose child process writes to the same terminal.  The calls and their
    arguments are recorded; the bytes that reach the terminal (the
    buffering of [stdout], the control sequences [tput] emits for the
    terminal type) are not modelled. *)
Inductive output : Type :=
| Printed (text : list ascii)
| Command (text : list ascii).

(** The part of the process environment the editor acts on: the settings
    of the terminal on descriptor 0, the lines written to [stderr] by
    [perror], and the output calls made for [stdout]. *)
Record world : Type := mk_world {
  w_tty : termios;
  w_stderr : list string;
  w_stdout : list output
}.

(** [perror(s)]: one line on [stderr], recorded by its prefix [s]. *)
Definition perror (s : string) (log : list string) : list string :=
  log ++ [s].

(** [scanc_nowait()], the same text in [src/mycutils.c] and in
    [src/main.c].  A successful [tcsetattr] installs the settings it is
    given, as the terminal driver does for settings that were read with
    [tcgetattr] and in which only ICANON, ECHO, VMIN and VTIME were
    changed; a failed call changes nothing. *)
Definition scanc_nowait (e : syscalls) (w : world) : ascii * world :=
  let buf := NUL in
  let old := termios_zero in
  let tty := w_tty w in
  let log := w_stderr w in
  let '(old, log) :=
    if tcgetattr_ok e then (tty, log) else (old, perror "tcsetattr()" log) in
  let old := set_lflag old (Z.land (c_lflag old) (tc_not ICANON)) in
  let old := set_lflag old (Z.land (c_lflag old) (tc_not ECHO)) in
  let old := set_cc old VMIN 1 in
  let old := set_cc old VTIME 0 in
  let '(tty, log) :=
    if tcsetattr_now_ok e then (old, log)
    else (tty, perror "tcsetattr ICANON" log) in
  let '(buf, log) :=
    match read_res e with
    | ReadByte c => (c, log)
    | ReadEOF => (buf, log)
    | ReadError => (buf, perror "read()" log)
    end in
  let old := set_lflag old (Z.lor (c_lflag old) ICANON) in
  let old := set_lflag old (Z.lor (c_lflag old) ECHO) in
  let '(tty, log) :=
    if tcsetattr_drain_ok e then (old, log)
    else (tty, perror "tcsetattr ~ICANON" log) in
  (buf, mk_world tty log (w_stdout w)).

(** The same function, observed at its two calls of [tcsetattr]: the
    values of [old] handed to the call with [TCSANOW] and to the call with
    [TCSADRAIN], whatever the driver makes of them. *)
Definition scanc_nowait_requests (e : syscalls) (w : world)
  : termios * termios :=
  let old := termios_zero in
  let old := if tcgetattr_ok e then w_tty w else old in
  let old := set_lflag old (Z.land (c_lflag old) (tc_not ICANON)) in
  let old := set_lflag old (Z.land (c_lflag old) (tc_not ECHO)) in
  let old := set_cc old VMIN 1 in
  let old := set_cc old VTIME 0 in
  let now := old in
  let old := set_lflag old (Z.lor (c_lflag old) ICANON) in
  let old := set_lflag old (Z.lor (c_lflag old) ECHO) in
  (now, old).

(** [system(command)]: the command line is the string in [command]. *)
Definition system (command : buffer) (w : world) : result world :=
  c <- cstring command ;;
  Ok (mk_world (w_tty w) (w_stderr w) (w_stdout w ++ [Command c])).

(** [fprintf(stdout, fmt, ...)]; its return value is not inspected. *)
Definition fprintf_stdout (fmt : list ascii) (args : list arg) (w : world)
  : result world :=
  out <- format fmt args ;;
  Ok (mk_world (w_tty w) (w_stderr w) (w_stdout w ++ [Printed out])).

(** The values [0], [1], ..., [n - 1] of a loop counter. *)
Definition indices (n : Z) : list Z := map Z.of_nat (seq 0 (Z.to_nat n)).

(** *** More of the C library and of the file helpers *)

(** Conversion of a [size_t] or an [unsigned] to [int], as in
    [int len = strlen(...)] or when [%d] reads an [unsigned]. *)
Definition int_of (z : Z) : Z := (z + 2 ^ 31) mod 2 ^ 32 - 2 ^ 31.

(** The value of a [char] in an expression: [char] is signed on x86-64. *)
Definition char_value (c : ascii) : Z :=
  let n := Z.of_N (N_of_ascii c) in
  if n <? 128 then n else n - 256.

(** The macro [EOF] of <stdio.h>. *)
Definition EOF : Z := -1.

(** [memmove(&b[dst], &b[src], n)] inside one block; the cells are
    copied as they are, written or not. *)
Definition memmove (b : buffer) (dst src n : Z) : result buffer :=
  if (0 <=? dst) && (0 <=? src) && (0 <=? n)
     && (dst + n <=? size b) && (src + n <=? size b)
  then
    Ok (firstn (Z.to_nat dst) b
        ++ firstn (Z.to_nat n) (skipn (Z.to_nat src) b)
        ++ skipn (Z.to_nat (dst + n)) b)
  else Fault OutOfBounds.

(** What one call of [fgetc] returns: a byte as an [unsigned char], or
    [EOF]. *)
Inductive fgetc_result : Type :=
| GotByte (c : ascii)
| GotEOF.

(** The [char] stored by [*buf = fgetc(fs)]: the byte, or [EOF]
    converted to [char]. *)
Definition char_of_fgetc (r : fgetc_result) : ascii :=
  match r with
  | GotByte c => c
  | GotEOF => "255"%char
  end.

(** [writefsc(fs, ch)], the same text in both copies: [fprintf(fs, "%c",
    ch)].  A stream is the list of the bytes written to it; the stream is
    taken to accept the byte (the return value of [fprintf] is not
    inspected). *)
Definition writefsc (fs : list ascii) (ch : ascii) : list ascii := fs ++ [ch].

(** The loop of [writefss]: [writefsc(fs, str[c])] for the values [cs] of
    the counter. *)
Fixpoint writefss_loop (cs : list Z) (fs : list ascii) (str : buffer)
  : result (list ascii) :=
  match cs with
  | [] => Ok fs
  | c :: cs' => x <- load str c ;; writefss_loop cs' (writefsc fs x) str
  end.

(** [writefss(fs, str)], the same text in both copies.  The counter is
    an [int] compared with the [size_t] length: past [INT_MAX] its
    increment overflows. *)
Definition writefss (fs : list ascii) (str : buffer) : result (list ascii) :=
  len <- strlen str ;;
  fs' <- writefss_loop (indices (Z.min len (Int.INT_MAX + 1))) fs str ;;
  if Int.INT_MAX <? len then Fault SignedOverflow else Ok fs'.

(** ** Time *)

Record timespec : Type := mk_timespec { tv_sec : Z; tv_nsec : Z }.

(** What one call of [clock_gettime(CLOCK_REALTIME, &ts)] does: it stores
    an instant and returns 0, or it returns -1 with [errno] set and stores
    nothing.  The field of [ClockError] is [strerror(errno)]. *)
Inductive clock_reading : Type :=
| ClockOk (now : timespec)
| ClockError (reason : string).

(** The calendar as [timestamp()] finds it: [time(NULL)] fails, or the
    conversion to text fails, or the text is produced; the field of
    [Calendar] is that text without its final newline. *)
Inductive calendar : Type :=
| TimeUnavailable
| Unconvertible
| Calendar (stamp : string).

(** Modelled from the spec: the macro [NANOS_PER_SEC] of [mycutils.h],
    which is not among the sources: the spec multiplies the seconds
    component by 1e9.  As an integer constant that fits [int] it is
    promoted to [long] in [elapsed.tv_sec * NANOS_PER_SEC]. *)
Definition NANOS_PER_SEC : Z := 1000000000.

(** A normalised instant, as [clock_gettime] produces them. *)
Definition normalised (t : timespec) : Prop :=
  0 <= tv_nsec t < NANOS_PER_SEC.

(** The mathematical elapsed time in nanoseconds. *)
Definition delta_ns (current start : timespec) : Z :=
  (tv_sec current - tv_sec start) * NANOS_PER_SEC
  + (tv_nsec current - tv_nsec start).

(** [start] is strictly later than [current] (for normalised instants). *)
Definition later (start current : timespec) : Prop :=
  tv_sec current < tv_sec start
  \/ (tv_sec current = tv_sec start /\ tv_nsec current < tv_nsec start).

(** The signed value [(elapsed.tv_sec * NANOS_PER_SEC) + elapsed.tv_nsec]
    computed by both copies of [check_timer]. *)
Definition elapsed_nanos (current start : timespec) : result Z :=
  sec <- Int.sub_long (tv_sec current) (tv_sec start) ;;
  nsec <- Int.sub_long (tv_nsec current) (tv_nsec start) ;;
  prod <- Int.mul_long sec NANOS_PER_SEC ;;
  Int.add_long prod nsec.

(** The line written by
    [fprintf(stderr, "[ %s ] ERROR: in function start_timer(): %s\n", ...)]. *)
Definition start_timer_message (stamp reason : string) : string :=
  ("[ " ++ stamp ++ " ] ERROR: in function start_timer(): " ++ reason)%string.

(** ** The copy in [src/mycutils.c] *)

Module Lib1.

(** [src/mycutils.c], [check_timer].  The return value of [clock_gettime]
    is not inspected: after a failed read [current] holds nothing.  The
    comparison is between the [long] sum and the [uint64_t] threshold, so
    the sum is converted to [uint64_t]. *)
Definition check_timer (clk : clock_reading) (start : timespec)
    (wait_time : Z) : result bool :=
  match clk with
  | ClockError _ => Fault Indeterminate
  | ClockOk current =>
      d <- elapsed_nanos current start ;;
      let has_elapsed := false in
      let has_elapsed :=
        if Int.to_uint64 d >=? wait_time then true else has_elapsed in
      Ok has_elapsed
  end.

(** [src/mycutils.c], [timestamp]: the text of [ctime], from which
    [stringrmc] removes the newline; the process exits when the time or
    its text is unavailable. *)
Definition timestamp (cal : calendar) : result string :=
  match cal with
  | TimeUnavailable =>
      Exit EXIT_FAILURE
        ["ERROR: In function timestamp(): Calender time is not available"%string]
  | Unconvertible =>
      Exit EXIT_FAILURE
        ["ERROR: In function timestamp(): Failure to convert the current time to a string."%string]
  | Calendar stamp => Ok stamp
  end.

(** [src/mycutils.c], [start_timer]: on failure the message is printed
    and the function returns.  The result is the value left in [*ts] and
    what was written to [stderr]. *)
Definition start_timer (clk : clock_reading) (cal : calendar)
    (ts : timespec) : result (timespec * list string) :=
  match clk with
  | ClockOk now => Ok (now, [])
  | ClockError reason =>
      stamp <- timestamp cal ;;
      Ok (ts, [start_timer_message stamp reason])
  end.

(** [src/mycutils.c], [stringf]: like [sfmt], but the terminator is
    added to the size as [+ 1], in [int], before the conversion to
    [size_t]. *)
Definition stringf (fmt : string) (args : list arg) : result buffer :=
  out <- format (list_ascii_of_string fmt) args ;;
  sum <- Int.add_int (vsnprintf_size out) 1 ;;
  let bytes := Int.to_uint64 sum in
  let sptr := malloc bytes in
  vsnprintf sptr bytes out.

(** [src/mycutils.c], the cursor functions [promptf] calls.  Their
    [unsigned] argument is read by [%d] as an [int]. *)
Definition termclearl (w : world) : result world :=
  system (literal "tput el1") w.

Definition cursputb (ncols : Z) (w : world) : result world :=
  cmd <- stringf "tput cub %d" [ArgD (int_of ncols)] ;; system cmd w.

Definition cursputf (ncols : Z) (w : world) : result world :=
  cmd <- stringf "tput cuf %d" [ArgD (int_of ncols)] ;; system cmd w.

Definition cursputu (nrows : Z) (w : world) : result world :=
  cmd <- stringf "tput cuu %d" [ArgD (int_of nrows)] ;; system cmd w.

(** [src/mycutils.c], [promptf]: the string is built by the statements of
    [stringf], then the line is cleared, the cursor moved, the string
    printed with a newline and the cursor put behind it. *)
Definition promptf (fmt : string) (args : list arg) (w : world)
  : result world :=
  prompt <- stringf fmt args ;;
  w <- termclearl w ;;
  len <- strlen prompt ;;
  w <- cursputb (Int.to_unsigned (Int.to_uint64 (len + 1))) w ;;
  w <- fprintf_stdout (list_ascii_of_string "%s" ++ [NEWLINE])
         [ArgS prompt] w ;;
  w <- cursputu 1 w ;;
  len <- strlen prompt ;;
  cursputf (Int.to_unsigned len) w.

(** The loop [for (c = 0; c < n; c++) dst[c] = src[c];] followed by
    [dst[c] = '\0'], for [n] below [INT_MAX]. *)
Fixpoint copy_prefix (cs : list Z) (dst src : buffer) : result buffer :=
  match cs with
  | [] => Ok dst
  | c :: cs' =>
      x <- load src c ;; dst' <- store dst c x ;; copy_prefix cs' dst' src
  end.

(** [stringrmlast(&s)]: the new value of [*s]. *)
Definition stringrmlast (s : buffer) : result buffer :=
  len <- strlen s ;;
  if len >? 0 then
    temps <- strcpy (malloc len) s ;;
    tlen <- strlen temps ;;
    let s' := malloc (Int.to_uint64 (tlen - 1)) in
    let n := Int.to_uint64 (tlen - 1) in
    s' <- copy_prefix (indices n) s' temps ;;
    store s' n NUL
  else Ok s.

(** The body of the [switch] in [scans]: the new values of [*buf] and
    [btemp]. *)
Definition dispatch (userin : ascii) (buf btemp : buffer)
  : result (buffer * buffer) :=
  if Ascii.eqb userin BACKSPACE then
    btemp' <- stringrmlast btemp ;; Ok (buf, btemp')
  else if Ascii.eqb userin NEWLINE then Ok (buf, btemp)
  else
    buf' <- stringf "%s%c" [ArgS btemp; ArgC userin] ;;
    len <- strlen buf' ;;
    btemp' <- strcpy (malloc len) buf' ;;
    Ok (buf', btemp').

(** The [do ... while (userin != '\n')] loop of [scans]; one element of
    the script is consumed by each call of [scanc_nowait]. *)
Fixpoint scans_loop (prompt : buffer) (script : list syscalls)
    (buf btemp : buffer) (w : world) : result (buffer * buffer * world) :=
  match script with
  | [] => _ <- promptf "%s%s" [ArgS prompt; ArgS btemp] w ;; Blocked
  | e :: script' =>
      w <- promptf "%s%s" [ArgS prompt; ArgS btemp] w ;;
      let '(userin, w) := scanc_nowait e w in
      ' (buf, btemp) <- dispatch userin buf btemp ;;
      if Ascii.eqb userin NEWLINE then Ok (buf, btemp, w)
      else scans_loop prompt script' buf btemp w
  end.

(** [scans(&buf, prompt)]: the block left in [*buf] and the environment
    afterwards.  Neither block is written before the loop. *)
Definition scans (prompt : buffer) (script : list syscalls) (w : world)
  : result (buffer * world) :=
  let buf := malloc 1 in
  let btemp := malloc 1 in
  ' (buf, _, w) <- scans_loop prompt script buf btemp w ;;
  Ok (buf, w).

(** The loop of [stringrmc]: [len] is the length on entry, [i] and
    [total_chars] are [int]s.  Every iteration either advances [i] or
    shortens the string, so [fuel], twice the length and one, is never
    used up by a string that fits [int]. *)
Fixpoint stringrmc_loop (fuel : nat) (str : buffer) (remove : ascii)
    (len i total_chars : Z) : result (buffer * Z) :=
  match fuel with
  | O => Diverges
  | S fuel' =>
      if i <? len then
        x <- load str i ;;
        if Ascii.eqb x remove then
          n <- strlen str ;;
          str' <- memmove str i (i + 1) (Int.to_uint64 (n - i)) ;;
          stringrmc_loop fuel' str' remove len (i - 1 + 1) (total_chars - 1)
        else stringrmc_loop fuel' str remove len (i + 1) total_chars
      else Ok (str, total_chars)
  end.

(** [stringrmc(&str, remove)]: the string is edited in place; the
    result is the block afterwards. *)
Definition stringrmc (str : buffer) (remove : ascii) : result buffer :=
  n <- strlen str ;;
  let len := int_of n in
  let total_chars := int_of n in
  ' (str, total_chars) <-
      stringrmc_loop (S (2 * Z.to_nat n)) str remove len 0 total_chars ;;
  store str total_chars NUL.

(** The line written by [readfsc] before it exits. *)
Definition readfsc_message (stamp reason : string) : string :=
  ("[ " ++ stamp ++ " ] ERROR: In function read_filec(): " ++ reason)%string.

(** [readfsc(fstreamp, buf)]: the status returned and the [char] left in
    [*buf].  [r] is what [fgetc] returns, [ferr] what [ferror] reports,
    [reason] is [strerror(errno)]. *)
Definition readfsc (r : fgetc_result) (ferr : bool) (cal : calendar)
    (reason : string) : result (bool * ascii) :=
  let SUCCESS := true in
  let END_OF_FILE := false in
  let status := SUCCESS in
  let buf := char_of_fgetc r in
  if char_value buf =? EOF then
    if ferr then
      stamp <- timestamp cal ;;
      Exit EXIT_FAILURE [readfsc_message stamp reason]
    else Ok (END_OF_FILE, buf)
  else Ok (status, buf).

End Lib1.

(** ** The copy in [src/main.c] *)

Module Lib2.

(** [src/main.c], [check_timer]: the same test, written as an early
    [return false]. *)
Definition check_timer (clk : clock_reading) (start : timespec)
    (wait_time : Z) : result bool :=
  match clk with
  | ClockError _ => Fault Indeterminate
  | ClockOk current =>
      d <- elapsed_nanos current start ;;
      if Int.to_uint64 d <? wait_time then Ok false else Ok true
  end.

(** [src/main.c], [timestamp]: the process exits when the time is
    unavailable; otherwise [ctime_r] is handed the local pointer [stamp],
    to which nothing was ever assigned. *)
Definition timestamp (cal : calendar) : result string :=
  match cal with
  | TimeUnavailable =>
      Exit EXIT_FAILURE
        ["ERROR: In function timestamp(): Calender time is not available"%string]
  | Unconvertible | Calendar _ => Fault Indeterminate
  end.

(** [src/main.c], [start_timer]: on failure the message is printed and
    the process exits with [EXIT_FAILURE]. *)
Definition start_timer (clk : clock_reading) (cal : calendar)
    (ts : timespec) : result (timespec * list string) :=
  match clk with
  | ClockOk now => Ok (now, [])
  | ClockError reason =>
      stamp <- timestamp cal ;;
      Exit EXIT_FAILURE [start_timer_message stamp reason]
  end.

Definition sfmt := format_alloc.

(** [src/main.c], the terminal functions [fprintf_clear] calls. *)
Definition termclearf (w : world) : result world :=
  system (literal "tput el") w.

Definition termclearb (w : world) : result world :=
  system (literal "tput el1") w.

Definition termclearfb (w : world) : result world :=
  w <- termclearf w ;; termclearb w.

(** The enumerators of [enum directions] that [cursmv] distinguishes. *)
Inductive directions : Type := UP | DOWN | LEFT | RIGHT.

(** [cursmv(n, direction)]; the [unsigned] [n] is read by [%d] as an
    [int]. *)
Definition cursmv (n : Z) (direction : directions) (w : world)
  : result world :=
  cmd <- match direction with
         | UP => sfmt "tput cuu %d" [ArgD (int_of n)]
         | DOWN => sfmt "tput cud %d" [ArgD (int_of n)]
         | LEFT => sfmt "tput cub %d" [ArgD (int_of n)]
         | RIGHT => sfmt "tput cuf %d" [ArgD (int_of n)]
         end ;;
  system cmd w.

(** [src/main.c], [fprintf_clear(stdout, fmt, ...)], the stream every
    call in the library names: the string is built by the statements of
    [sfmt], then the line is cleared, the cursor moved, the string printed
    with a newline and the cursor put behind it. *)
Definition fprintf_clear (fmt : string) (args : list arg) (w : world)
  : result world :=
  prompt <- format_alloc fmt args ;;
  w <- termclearfb w ;;
  len <- strlen prompt ;;
  w <- cursmv (Int.to_unsigned (Int.to_uint64 (len + 1))) LEFT w ;;
  w <- fprintf_stdout (list_ascii_of_string "%s" ++ [NEWLINE])
         [ArgS prompt] w ;;
  w <- cursmv 1 UP w ;;
  len <- strlen prompt ;;
  cursmv (Int.to_unsigned len) RIGHT w.

(** The loop of [sdelelem]: [c] is an [unsigned] compared with the
    [size_t] length, the list [cs] holds the values it takes. *)
Fixpoint sdelelem_loop (cs : list Z) (sp : buffer) (elem : Z)
    (to_elem from_elem : buffer) : result (buffer * buffer) :=
  match cs with
  | [] => Ok (to_elem, from_elem)
  | c :: cs' =>
      to_elem <- (if c <? elem
                  then x <- load sp c ;; store to_elem c x
                  else Ok to_elem) ;;
      from_elem <- (if c >? elem
                    then x <- load sp c ;; store from_elem c x
                    else Ok from_elem) ;;
      sdelelem_loop cs' sp elem to_elem from_elem
  end.

(** [sdelelem(&sp, elem)]: the new value of [*sp].  [elem] is an
    [unsigned]; [elem + 1] is computed in [unsigned], the other sizes and
    indices in [size_t].  When the string has 2^32 characters or more the
    counter wraps before it reaches the length and the loop never ends. *)
Definition sdelelem (sp : buffer) (elem : Z) : result buffer :=
  len <- strlen sp ;;
  let to_elem := malloc (Int.to_uint64 (Int.to_unsigned (elem + 1))) in
  let from_elem := malloc (Int.to_uint64 (len - elem)) in
  ' (to_elem, from_elem) <-
      sdelelem_loop (indices (Z.min len (2 ^ 32))) sp elem to_elem from_elem ;;
  if 2 ^ 32 <=? len then Diverges
  else
    to_elem <- store to_elem elem NUL ;;
    from_elem <- store from_elem (Int.to_uint64 (len - elem - 1)) NUL ;;
    sfmt "%s%s" [ArgS to_elem; ArgS from_elem].

(** The body of the [switch] in [scans]: the new values of [*buf] and
    [btemp].  The argument [strlen(btemp) - 1] is computed in [size_t] and
    converted to [unsigned]. *)
Definition dispatch (userin : ascii) (buf btemp : buffer)
  : result (buffer * buffer) :=
  if Ascii.eqb userin BACKSPACE then
    len <- strlen btemp ;;
    btemp' <- sdelelem btemp (Int.to_unsigned (Int.to_uint64 (len - 1))) ;;
    Ok (buf, btemp')
  else if Ascii.eqb userin NEWLINE then Ok (buf, btemp)
  else
    buf' <- sfmt "%s%c" [ArgS btemp; ArgC userin] ;;
    btemp' <- sfmt "%s" [ArgS buf'] ;;
    Ok (buf', btemp').

(** The [do ... while (userin != '\n')] loop of [scans]. *)
Fixpoint scans_loop (prompt : buffer) (script : list syscalls)
    (buf btemp : buffer) (w : world) : result (buffer * buffer * world) :=
  match script with
  | [] => _ <- fprintf_clear "%s%s" [ArgS prompt; ArgS btemp] w ;; Blocked
  | e :: script' =>
      w <- fprintf_clear "%s%s" [ArgS prompt; ArgS btemp] w ;;
      let '(userin, w) := scanc_nowait e w in
      ' (buf, btemp) <- dispatch userin buf btemp ;;
      if Ascii.eqb userin NEWLINE then Ok (buf, btemp, w)
      else scans_loop prompt script' buf btemp w
  end.

(** [scans(&buf, prompt)]: the block left in [*buf] and the environment
    afterwards.  [*buf] is allocated and not written; [btemp[0]] is set to
    NUL. *)
Definition scans (prompt : buffer) (script : list syscalls) (w : world)
  : result (buffer * world) :=
  let buf := malloc 1 in
  let btemp := malloc 1 in
  btemp <- store btemp 0 NUL ;;
  ' (buf, _, w) <- scans_loop prompt script buf btemp w ;;
  Ok (buf, w).

(** The loop of [sdelchar]: [c] is an [unsigned], so [c--] at 0
    followed by [c++] gives 0 again.  Every iteration either advances [c]
    or shortens the string, so [fuel], twice the length and one, is never
    used up by a string that fits [int]. *)
Fixpoint sdelchar_loop (fuel : nat) (sp : buffer) (remove : ascii) (c : Z)
  : result buffer :=
  match fuel with
  | O => Diverges
  | S fuel' =>
      len <- strlen sp ;;
      if c <? len then
        x <- load sp c ;;
        if Ascii.eqb x remove then
          sp' <- sdelelem sp c ;;
          sdelchar_loop fuel' sp' remove
            (Int.to_unsigned (Int.to_unsigned (c - 1) + 1))
        else sdelchar_loop fuel' sp remove (Int.to_unsigned (c + 1))
      else Ok sp
  end.

(** [sdelchar(&sp, remove)]: the new value of [*sp]. *)
Definition sdelchar (sp : buffer) (remove : ascii) : result buffer :=
  n <- strlen sp ;;
  sdelchar_loop (S (2 * Z.to_nat n)) sp remove 0.

(** The line written by [readfsc] before it exits. *)
Definition readfsc_message (stamp reason : string) : string :=
  ("[ " ++ stamp ++ " ] ERROR: In function readfsc(): " ++ reason)%string.

(** [readfsc(fs, buf)]: the status returned and the [char] left in
    [*buf]. *)
Definition readfsc (r : fgetc_result) (ferr : bool) (cal : calendar)
    (reason : string) : result (bool * ascii) :=
  let SUCCESS := true in
  let END_OF_FILE := false in
  let buf := char_of_fgetc r in
  if negb (char_value buf =? EOF) then Ok (SUCCESS, buf)
  else if negb ferr then Ok (END_OF_FILE, buf)
  else
    stamp <- timestamp cal ;;
    Exit EXIT_FAILURE [readfsc_message stamp reason].

End Lib2.

(** The terminal settings of a Linux console in its usual cooked mode,
    and the prompt of the example program. *)
Definition cooked : termios :=
  mk_termios 1280 5 191 35387 0
    [3; 28; 127; 21; 4; 0; 1; 0; 17; 19; 26; 0; 18; 15; 23; 22;
     0; 0; 0; 0; 0; 0; 0; 0; 0; 0; 0; 0; 0; 0; 0; 0]
    15 15.

Definition world0 : world := mk_world cooked [] [].

Definition the_prompt : buffer := literal "Write a name for the file: ".

Definition str (s : string) : list ascii := list_ascii_of_string s.

(** The largest number of whole seconds, about 2.5 million hours, whose
    nanosecond count still fits [long] together with any difference of two
    normalised nanosecond fields. *)
Definition max_safe_seconds : Z := 9223372035.

Definition hours (h : Z) : Z := h * 3600.

(** The character one call of [scanc_nowait] returns: the byte read, or
    the initial value 0 of its local [buf] when nothing was stored. *)
Definition delivered (e : syscalls) : ascii :=
  match read_res e with
  | ReadByte c => c
  | ReadEOF | ReadError => NUL
  end.

(** No call of [scanc_nowait] in the script returns the newline. *)
Definition no_enter (script : list syscalls) : bool :=
  forallb (fun e => negb (Ascii.eqb (delivered e) NEWLINE)) script.

(** The state of the loop of [scans] between two iterations, as the
    copy of [src/main.c] maintains it: [btemp] holds exactly the line
    shown, which fits [int], and once the line is not empty [*buf] starts
    with it. *)
Definition editing (buf btemp : buffer) (shown : list ascii) : Prop :=
  btemp = holding shown
  /\ ~ In NUL shown
  /\ Z.of_nat (length shown) <= Int.INT_MAX
  /\ (shown = [] \/ exists rest, cstring buf = Ok (shown ++ rest)).

(** The line editor in the words of its description: a backspace
    removes the last character of the line, any other key is appended. *)
Definition type_key (line : list ascii) (c : ascii) : list ascii :=
  if Ascii.eqb c BACKSPACE then removelast line else line ++ [c].

Definition line_after (line : list ascii) (ks : list ascii) : list ascii :=
  fold_left type_key ks line.

(** The output calls [fprintf_clear] of [src/main.c] makes for a line:
    the line is cleared to its end and to its beginning, the cursor is
    moved left by the length of the line and one, the line is printed with
    a newline, and the cursor is moved up one row and right by the length
    of the line. *)
Definition shown (line : list ascii) : list output :=
  let len := Z.of_nat (length line) in
  [Command (str "tput el"); Command (str "tput el1");
   Command (str "tput cub "
            ++ decimal (int_of (Int.to_unsigned (Int.to_uint64 (len + 1)))));
   Printed (line ++ [NEWLINE]);
   Command (str "tput cuu 1");
   Command (str "tput cuf " ++ decimal (int_of (Int.to_unsigned len)))].

Definition show (line : list ascii) (w : world) : world :=
  mk_world (w_tty w) (w_stderr w) (w_stdout w ++ shown line).

(** The same calls for a line that fits [int] with its newline. *)
Definition display (line : list ascii) : list output :=
  let len := Z.of_nat (length line) in
  [Command (str "tput el"); Command (str "tput el1");
   Command (str "tput cub " ++ decimal (len + 1));
   Printed (line ++ [NEWLINE]);
   Command (str "tput cuu 1");
   Command (str "tput cuf " ++ decimal len)].

(** The lines on display when each of the keys [ks] is read. *)
Fixpoint history (line : list ascii) (ks : list ascii)
  : list (list ascii) :=
  match ks with
  | [] => []
  | c :: ks' => line :: history (type_key line c) ks'
  end.

(** The output calls that show the lines [ls], each behind the prompt
    [p]. *)
Definition screen (p : list ascii) (ls : list (list ascii)) : list output :=
  concat (map (fun l => display (p ++ l)) ls).

Definition is_empty (line : list ascii) : bool :=
  match line with [] => true | _ => false end.

(** Keys the editor of [src/main.c] handles like the description: no
    newline, no NUL, and no backspace while the line is empty. *)
Fixpoint typable (line : list ascii) (ks : list ascii) : bool :=
  match ks with
  | [] => true
  | c :: ks' =>
      negb (Ascii.eqb c NEWLINE) && negb (Ascii.eqb c NUL)
      && (negb (Ascii.eqb c BACKSPACE) || negb (is_empty line))
      && typable (type_key line c) ks'
  end.

(** The terminal calls a script relies on all succeed. *)
Definition terminal_calls_ok (script : list syscalls) : bool :=
  forallb (fun e => tcgetattr_ok e && tcsetattr_drain_ok e) script.

(** The characters [stringrmc] keeps. *)
Definition other_than (remove : ascii) (x : ascii) : bool :=
  negb (Ascii.eqb x remove).

(** The block [stringrmc] works in, mid-way: the characters kept so far,
    those still to be examined, the terminator, the [k] NUL bytes left
    behind by the characters removed so far, and the rest of the block. *)
Definition rmc_block (kept todo : list ascii) (k : nat) (rest : buffer)
  : buffer :=
  map Some (kept ++ todo ++ NUL :: repeat NUL k) ++ rest.

(** * Properties of the timer *)

Section Timer.

Lemma in_long_true (z : Z) :
  Int.in_long z = true <-> Int.LONG_MIN <= z <= Int.LONG_MAX.
Proof.
  unfold Int.in_long. rewrite andb_true_iff, !Z.leb_le. tauto.
Qed.

Lemma long_of_in_range (z : Z) :
  Int.LONG_MIN <= z <= Int.LONG_MAX -> Int.long_of z = Ok z.
Proof.
  intros Hz. unfold Int.long_of.
  destruct (Int.in_long z) eqn:E; [reflexivity|].
  apply in_long_true in Hz. congruence.
Qed.

Lemma long_of_ok (z r : Z) :
  Int.long_of z = Ok r -> r = z /\ Int.LONG_MIN <= z <= Int.LONG_MAX.
Proof.
  unfold Int.long_of. destruct (Int.in_long z) eqn:E; [|discriminate].
  intros H. injection H as <-. split; [reflexivity|now apply in_long_true].
Qed.

(** Whenever the sum is computed at all, it is the mathematical elapsed
    time and it fits [long]. *)
Lemma elapsed_nanos_ok (current start : timespec) (d : Z) :
  elapsed_nanos current start = Ok d ->
  d = delta_ns current start /\ Int.LONG_MIN <= d <= Int.LONG_MAX.
Proof.
  unfold elapsed_nanos, Int.sub_long, Int.mul_long, Int.add_long, delta_ns.
  destruct (Int.long_of (tv_sec current - tv_sec start)) as [s| | | |] eqn:Es;
    try discriminate; simpl.
  destruct (Int.long_of (tv_nsec current - tv_nsec start)) as [n| | | |] eqn:En;
    try discriminate; simpl.
  destruct (Int.long_of (s * NANOS_PER_SEC)) as [p| | | |] eqn:Ep;
    try discriminate; simpl.
  intros H.
  apply long_of_ok in Es, En, Ep, H.
  destruct Es as [-> _], En as [-> _], Ep as [-> _], H as [-> H].
  split; [reflexivity|exact H].
Qed.

(** Within [max_safe_seconds] no step of the computation leaves [long]. *)
Lemma elapsed_nanos_in_range (current start : timespec) :
  normalised current -> normalised start ->
  Z.abs (tv_sec current - tv_sec start) <= max_safe_seconds ->
  elapsed_nanos current start = Ok (delta_ns current start).
Proof.
  unfold normalised, NANOS_PER_SEC, max_safe_seconds.
  intros Hc Hs Hd.
  unfold elapsed_nanos, Int.sub_long, Int.mul_long, Int.add_long, delta_ns.
  assert (Hsec : - 9223372035 <= tv_sec current - tv_sec start <= 9223372035)
    by lia.
  rewrite long_of_in_range by (unfold Int.LONG_MIN, Int.LONG_MAX; lia).
  simpl.
  rewrite long_of_in_range by (unfold Int.LONG_MIN, Int.LONG_MAX; lia).
  simpl.
  rewrite long_of_in_range
    by (unfold Int.LONG_MIN, Int.LONG_MAX, NANOS_PER_SEC; lia).
  simpl.
  rewrite long_of_in_range
    by (unfold Int.LONG_MIN, Int.LONG_MAX, NANOS_PER_SEC; lia).
  reflexivity.
Qed.

(** The two copies of [check_timer] compute the same function. *)
Lemma check_timer_copies_agree clk start wait_time :
  Lib1.check_timer clk start wait_time = Lib2.check_timer clk start wait_time.
Proof.
  unfold Lib1.check_timer, Lib2.check_timer.
  destruct clk as [current|reason]; [|reflexivity].
  destruct (elapsed_nanos current start) as [d| | | |]; simpl; try reflexivity.
  rewrite Z.geb_leb.
  destruct (Z.leb_spec wait_time (Int.to_uint64 d));
    destruct (Z.ltb_spec (Int.to_uint64 d) wait_time); try reflexivity; lia.
Qed.

(** The result in terms of the value converted to [uint64_t]. *)
Lemma check_timer_unfold current start wait_time d :
  elapsed_nanos current start = Ok d ->
  Lib2.check_timer (ClockOk current) start wait_time
  = Ok (wait_time <=? Int.to_uint64 d).
Proof.
  intros H. unfold Lib2.check_timer. rewrite H. simpl.
  destruct (Z.ltb_spec (Int.to_uint64 d) wait_time);
    destruct (Z.leb_spec wait_time (Int.to_uint64 d)); try reflexivity; lia.
Qed.

(** For an elapsed time that is not negative the test is the intended
    one: true exactly from the threshold on. *)
Lemma check_timer_elapsed_iff current start wait_time :
  normalised current -> normalised start ->
  Z.abs (tv_sec current - tv_sec start) <= max_safe_seconds ->
  0 <= delta_ns current start ->
  Lib2.check_timer (ClockOk current) start wait_time
  = Ok (wait_time <=? delta_ns current start).
Proof.
  intros Hc Hs Hd Hpos.
  pose proof (elapsed_nanos_in_range _ _ Hc Hs Hd) as He.
  rewrite (check_timer_unfold _ _ _ _ He).
  destruct (elapsed_nanos_ok _ _ _ He) as [_ Hr].
  unfold Int.to_uint64, Int.LONG_MIN, Int.LONG_MAX in *.
  rewrite Z.mod_small by lia. reflexivity.
Qed.

(** For a negative elapsed time the converted value is [2^64] more. *)
Lemma check_timer_negative current start wait_time :
  normalised current -> normalised start ->
  Z.abs (tv_sec current - tv_sec start) <= max_safe_seconds ->
  delta_ns current start < 0 ->
  Lib2.check_timer (ClockOk current) start wait_time
  = Ok (wait_time <=? 2 ^ 64 + delta_ns current start).
Proof.
  intros Hc Hs Hd Hneg.
  pose proof (elapsed_nanos_in_range _ _ Hc Hs Hd) as He.
  rewrite (check_timer_unfold _ _ _ _ He).
  destruct (elapsed_nanos_ok _ _ _ He) as [_ Hr].
  unfold Int.to_uint64, Int.LONG_MIN, Int.LONG_MAX in *.
  replace (delta_ns current start mod 2 ^ 64)
    with (2 ^ 64 + delta_ns current start); [reflexivity|].
  apply Z.mod_unique with (q := -1); lia.
Qed.

Lemma later_delta_negative current start :
  normalised current -> normalised start -> later start current ->
  delta_ns current start < 0.
Proof.
  unfold normalised, later, delta_ns, NANOS_PER_SEC. intros Hc Hs Hl.
  destruct Hl as [Hl|[Hl1 Hl2]]; lia.
Qed.

End Timer.

Section TimerClaims.

(** C1.  The claim: for every start instant and threshold, [check_timer]
    is true exactly when the signed elapsed time reaches the threshold.
    The code at a start instant one second in the future and a threshold
    of one nanosecond: the signed elapsed time is -10^9 ns, below the
    threshold, and both copies answer true. *)
Theorem check_timer_future_start_counts_as_elapsed :
  let current := mk_timespec 1700000000 0 in
  let start := mk_timespec 1700000001 0 in
  delta_ns current start = -1000000000
  /\ (1 <=? delta_ns current start) = false
  /\ Lib1.check_timer (ClockOk current) start 1 = Ok true
  /\ Lib2.check_timer (ClockOk current) start 1 = Ok true.
Proof.
  cbv zeta. repeat split; vm_compute; reflexivity.
Qed.

(** C8.  For two normalised instants whose seconds differ by at most [h]
    hours, for any [h] up to 2562047 (about 292 years), no operation of the
    delta computation leaves the range of [long]: the computed value is
    the mathematical elapsed time and both copies of [check_timer]
    return. *)
Theorem delta_computation_does_not_overflow :
  forall (current start : timespec) (wait_time h : Z),
    normalised current -> normalised start ->
    0 <= h <= 2562047 ->
    Z.abs (tv_sec current - tv_sec start) <= hours h ->
    elapsed_nanos current start = Ok (delta_ns current start)
    /\ exists b : bool,
         Lib1.check_timer (ClockOk current) start wait_time = Ok b
         /\ Lib2.check_timer (ClockOk current) start wait_time = Ok b.
Proof.
  intros current start wait_time h Hc Hs Hh Hd.
  assert (Hm : Z.abs (tv_sec current - tv_sec start) <= max_safe_seconds)
    by (unfold hours, max_safe_seconds in *; lia).
  pose proof (elapsed_nanos_in_range _ _ Hc Hs Hm) as He.
  split; [exact He|].
  exists (wait_time <=? Int.to_uint64 (delta_ns current start)).
  rewrite check_timer_copies_agree.
  split; apply check_timer_unfold; exact He.
Qed.

Lemma delta_computation_does_not_overflow_witness :
  let current := mk_timespec 1700086400 1 in
  let start := mk_timespec 1700000000 999999999 in
  elapsed_nanos current start = Ok (delta_ns current start)
  /\ exists b : bool,
       Lib1.check_timer (ClockOk current) start 16666666 = Ok b
       /\ Lib2.check_timer (ClockOk current) start 16666666 = Ok b.
Proof.
  cbv zeta.
  apply (delta_computation_does_not_overflow
           (mk_timespec 1700086400 1) (mk_timespec 1700000000 999999999)
           16666666 24).
  - unfold normalised, NANOS_PER_SEC; simpl; lia.
  - unfold normalised, NANOS_PER_SEC; simpl; lia.
  - lia.
  - unfold hours; simpl; lia.
Defined.

(** C9, as stated, fails: with a start instant 5 ns in the future the
    converted delta is 2^64 - 5, and for the threshold 2^64 - 1 both copies
    answer false. *)
Lemma check_timer_future_start_large_threshold :
  let current := mk_timespec 1700000000 0 in
  let start := mk_timespec 1700000000 5 in
  let wait_time := 2 ^ 64 - 1 in
  normalised current /\ normalised start /\ later start current
  /\ Int.is_uint64 wait_time
  /\ Lib1.check_timer (ClockOk current) start wait_time = Ok false
  /\ Lib2.check_timer (ClockOk current) start wait_time = Ok false.
Proof.
  cbv zeta. unfold normalised, later, Int.is_uint64, NANOS_PER_SEC. simpl.
  repeat split; try lia; vm_compute; reflexivity.
Qed.

(** C9, amended.  When the start instant is strictly later than the
    current one (both normalised, at most [max_safe_seconds] apart), the
    elapsed time [D] is negative, it is compared as [2^64 + D], and both
    copies of [check_timer] answer true for every threshold up to
    [2^64 + D] and false for every larger one.  Since [2^64 + D] is at
    least [2^63], the answer is true for every threshold up to [2^63]. *)
Theorem check_timer_future_start :
  forall (current start : timespec) (wait_time : Z),
    normalised current -> normalised start ->
    later start current ->
    Z.abs (tv_sec current - tv_sec start) <= max_safe_seconds ->
    delta_ns current start < 0
    /\ 2 ^ 63 <= 2 ^ 64 + delta_ns current start
    /\ Lib1.check_timer (ClockOk current) start wait_time
       = Ok (wait_time <=? 2 ^ 64 + delta_ns current start)
    /\ Lib2.check_timer (ClockOk current) start wait_time
       = Ok (wait_time <=? 2 ^ 64 + delta_ns current start).
Proof.
  intros current start wait_time Hc Hs Hl Hd.
  pose proof (later_delta_negative _ _ Hc Hs Hl) as Hneg.
  pose proof (elapsed_nanos_in_range _ _ Hc Hs Hd) as He.
  destruct (elapsed_nanos_ok _ _ _ He) as [_ Hr].
  unfold Int.LONG_MIN in Hr.
  split; [exact Hneg|]. split; [lia|].
  rewrite check_timer_copies_agree.
  split; apply check_timer_negative; assumption.
Qed.

Lemma check_timer_future_start_witness :
  let current := mk_timespec 1700000000 0 in
  let start := mk_timespec 1700000001 0 in
  delta_ns current start < 0
  /\ 2 ^ 63 <= 2 ^ 64 + delta_ns current start
  /\ Lib1.check_timer (ClockOk current) start 16666666
     = Ok (16666666 <=? 2 ^ 64 + delta_ns current start)
  /\ Lib2.check_timer (ClockOk current) start 16666666
     = Ok (16666666 <=? 2 ^ 64 + delta_ns current start).
Proof.
  cbv zeta.
  apply (check_timer_future_start
           (mk_timespec 1700000000 0) (mk_timespec 1700000001 0) 16666666).
  - unfold normalised, NANOS_PER_SEC; simpl; lia.
  - unfold normalised, NANOS_PER_SEC; simpl; lia.
  - left; simpl; lia.
  - unfold max_safe_seconds; simpl; lia.
Defined.

(** When the clock read fails, [start_timer] of [src/main.c] does not
    return to its caller: it is on its way to [exit(EXIT_FAILURE)], which
    it reaches inside [timestamp] when the calendar time is unavailable;
    otherwise [timestamp], called for the message, has no defined
    behaviour. *)
Lemma start_timer_does_not_return (reason : string) (cal : calendar)
    (ts : timespec) :
  Lib2.start_timer (ClockError reason) cal ts
  = match cal with
    | TimeUnavailable =>
        Exit EXIT_FAILURE
          ["ERROR: In function timestamp(): Calender time is not available"%string]
    | _ => Fault Indeterminate
    end.
Proof. destruct cal; reflexivity. Qed.

(** C5.  The claim: when the clock read fails, [start_timer] ends the
    process and never returns.  The copy in [src/mycutils.c] at a failed
    clock read, the calendar time being available: the message is written
    and the call returns, the timer left as it was. *)
Theorem start_timer_returns_after_clock_failure :
  forall (reason stamp : string) (ts : timespec),
    Lib1.start_timer (ClockError reason) (Calendar stamp) ts
    = Ok (ts, [start_timer_message stamp reason]).
Proof.
  intros reason stamp ts. reflexivity.
Qed.

End TimerClaims.

(** * Properties of blocks and strings *)

Section Blocks.

Lemma size_nonneg (b : buffer) : 0 <= size b.
Proof. unfold size. lia. Qed.

Lemma size_app (a b : buffer) : size (a ++ b) = size a + size b.
Proof. unfold size. rewrite length_app. lia. Qed.

Lemma size_map_Some (s : list ascii) :
  size (map Some s) = Z.of_nat (length s).
Proof. unfold size. now rewrite length_map. Qed.

Lemma malloc_small (n : Z) :
  0 <= n <= Int.PTRDIFF_MAX -> malloc n = repeat None (Z.to_nat n).
Proof.
  intros Hn. unfold malloc.
  destruct (Z.leb_spec n Int.PTRDIFF_MAX); [reflexivity|lia].
Qed.

Lemma malloc_refused (n : Z) : Int.PTRDIFF_MAX < n -> malloc n = [].
Proof.
  intros Hn. unfold malloc.
  destruct (Z.leb_spec n Int.PTRDIFF_MAX); [lia|reflexivity].
Qed.

(** Storing right after an initialised prefix. *)
Lemma store_after_prefix (pre : list ascii) (old : option ascii)
    (rest : buffer) (c : ascii) :
  store (map Some pre ++ old :: rest) (Z.of_nat (length pre)) c
  = Ok (map Some (pre ++ [c]) ++ rest).
Proof.
  unfold store.
  rewrite size_app, size_map_Some. unfold size. simpl length.
  destruct (Z.leb_spec 0 (Z.of_nat (length pre))); [|lia].
  destruct (Z.ltb_spec (Z.of_nat (length pre))
              (Z.of_nat (length pre) + Z.of_nat (S (length rest)))); [|lia].
  cbv [andb]. rewrite Nat2Z.id.
  assert (Hl : length (map Some pre) = length pre) by apply length_map.
  rewrite firstn_app, skipn_app, Hl.
  rewrite firstn_all2 by lia.
  replace (length pre - length pre)%nat with 0%nat by lia.
  replace (S (length pre) - length pre)%nat with 1%nat by lia.
  rewrite skipn_all2 by lia.
  simpl. rewrite app_nil_r, map_app, <- app_assoc. reflexivity.
Qed.

Lemma store_empty (i : Z) (c : ascii) : store [] i c = Fault OutOfBounds.
Proof.
  unfold store, size. simpl.
  destruct (0 <=? i) eqn:E1; destruct (i <? 0) eqn:E2; try reflexivity.
  apply Z.leb_le in E1. apply Z.ltb_lt in E2. lia.
Qed.

(** Filling a fresh region byte after byte. *)
Lemma store_bytes_fresh (cs pre : list ascii) (rest : buffer) :
  store_bytes (map Some pre ++ repeat None (length cs) ++ rest)
              (Z.of_nat (length pre)) cs
  = Ok (map Some (pre ++ cs) ++ rest).
Proof.
  revert pre. induction cs as [|c cs IH]; intros pre.
  - simpl. now rewrite app_nil_r.
  - simpl repeat. simpl store_bytes.
    rewrite store_after_prefix. cbn [bind].
    replace (Z.of_nat (length pre) + 1) with (Z.of_nat (length (pre ++ [c])))
      by (rewrite length_app; simpl; lia).
    rewrite IH, <- app_assoc. reflexivity.
Qed.

(** A region that is one cell short is overrun by the last byte. *)
Lemma store_bytes_overrun (cs pre : list ascii) (c : ascii) :
  store_bytes (map Some pre ++ repeat None (length cs))
              (Z.of_nat (length pre)) (cs ++ [c])
  = Fault OutOfBounds.
Proof.
  revert pre. induction cs as [|x cs IH]; intros pre.
  - simpl. rewrite app_nil_r. unfold store. rewrite size_map_Some.
    destruct (Z.ltb_spec (Z.of_nat (length pre)) (Z.of_nat (length pre)));
      [lia|]. now rewrite andb_false_r.
  - simpl repeat. simpl store_bytes.
    rewrite store_after_prefix. cbn [bind].
    replace (Z.of_nat (length pre) + 1) with (Z.of_nat (length (pre ++ [x])))
      by (rewrite length_app; simpl; lia).
    apply IH.
Qed.

Lemma cstring_holding (s : list ascii) (rest : buffer) :
  ~ In NUL s -> cstring (map Some (s ++ [NUL]) ++ rest) = Ok s.
Proof.
  induction s as [|c s IH]; intros Hs.
  - reflexivity.
  - simpl. destruct (Ascii.eqb_spec c NUL) as [->|Hc].
    + exfalso. apply Hs. now left.
    + rewrite IH by (intros H; apply Hs; now right). reflexivity.
Qed.

(** What a successful read of a string tells about the block. *)
Lemma cstring_ok (b : buffer) (s : list ascii) :
  cstring b = Ok s ->
  ~ In NUL s /\ exists rest, b = map Some (s ++ [NUL]) ++ rest.
Proof.
  revert s. induction b as [|[c|] b IH]; intros s H; try discriminate.
  simpl in H. destruct (Ascii.eqb_spec c NUL) as [->|Hc].
  - injection H as <-. split; [intros []|]. now exists b.
  - destruct (cstring b) as [s'| | | |]; try discriminate.
    simpl in H. injection H as <-.
    destruct (IH s' eq_refl) as [Hs' [rest ->]].
    split.
    + intros [E|E]; [now apply Hc|now apply Hs'].
    + now exists rest.
Qed.

Lemma cstring_holding_exact (s : list ascii) :
  ~ In NUL s -> cstring (holding s) = Ok s.
Proof.
  intros Hs. unfold holding.
  rewrite <- (app_nil_r (map Some (s ++ [NUL]))). now apply cstring_holding.
Qed.

Lemma strlen_holding (s : list ascii) :
  ~ In NUL s -> strlen (holding s) = Ok (Z.of_nat (length s)).
Proof.
  intros Hs. unfold strlen. now rewrite cstring_holding_exact.
Qed.

End Blocks.

(** * Properties of the formatting helpers *)

Section Formatting.

Lemma format_s_c (b : buffer) (c : ascii) :
  format (list_ascii_of_string "%s%c") [ArgS b; ArgC c]
  = s <- cstring b ;; Ok (s ++ [c]).
Proof. simpl. destruct (cstring b); reflexivity. Qed.

Lemma format_s (b : buffer) :
  format (list_ascii_of_string "%s") [ArgS b] = cstring b.
Proof.
  simpl. destruct (cstring b); simpl; try reflexivity.
  now rewrite app_nil_r.
Qed.

Lemma format_s_s (a b : buffer) :
  format (list_ascii_of_string "%s%s") [ArgS a; ArgS b]
  = p <- cstring a ;; s <- cstring b ;; Ok (p ++ s).
Proof.
  simpl. destruct (cstring a); simpl; try reflexivity.
  destruct (cstring b); simpl; try reflexivity.
  now rewrite app_nil_r.
Qed.

(** An output that fits [int] is stored, with its NUL, in a block of
    exactly that size. *)
Lemma format_alloc_fits fmt args (out : list ascii) :
  format (list_ascii_of_string fmt) args = Ok out ->
  Z.of_nat (length out) <= Int.INT_MAX ->
  format_alloc fmt args = Ok (holding out).
Proof.
  intros Hf Hlen. unfold format_alloc. rewrite Hf. cbn [bind].
  unfold vsnprintf, vsnprintf_size, Int.INT_MAX, Int.to_uint64 in *.
  destruct (Z.leb_spec (Z.of_nat (length out)) (2 ^ 31 - 1)); [|lia].
  rewrite Z.mod_small by lia.
  rewrite malloc_small by (unfold Int.PTRDIFF_MAX; lia).
  destruct (Z.eqb_spec (Z.of_nat (length out) + 1) 0); [lia|].
  destruct (Z.ltb_spec (Z.of_nat (length out)) 0); [lia|].
  cbn [orb].
  rewrite firstn_all2 by lia.
  replace (Z.to_nat (Z.of_nat (length out) + 1))
    with (length (out ++ [NUL])) by (rewrite length_app; simpl; lia).
  pose proof (store_bytes_fresh (out ++ [NUL]) [] []) as Hfill.
  simpl in Hfill. rewrite !app_nil_r in Hfill. exact Hfill.
Qed.

(** An output that does not fit [int] leaves a zero-sized block. *)
Lemma format_alloc_too_long fmt args (out : list ascii) :
  format (list_ascii_of_string fmt) args = Ok out ->
  Int.INT_MAX < Z.of_nat (length out) ->
  format_alloc fmt args = Ok [].
Proof.
  intros Hf Hlen. unfold format_alloc. rewrite Hf. cbn [bind].
  unfold vsnprintf, vsnprintf_size.
  destruct (Z.leb_spec (Z.of_nat (length out)) Int.INT_MAX); [lia|].
  reflexivity.
Qed.

Lemma format_alloc_cases fmt args (out : list ascii) :
  format (list_ascii_of_string fmt) args = Ok out ->
  format_alloc fmt args
  = Ok (if Z.of_nat (length out) <=? Int.INT_MAX then holding out else []).
Proof.
  intros Hf.
  destruct (Z.leb_spec (Z.of_nat (length out)) Int.INT_MAX).
  - now apply (format_alloc_fits fmt args out).
  - now apply (format_alloc_too_long fmt args out).
Qed.

(** The line shown for a prompt [p] and a line [s]. *)
Lemma format_show_s_s (a b : buffer) (p s : list ascii) :
  cstring a = Ok p -> cstring b = Ok s ->
  format_show "%s%s" [ArgS a; ArgS b]
  = if Z.of_nat (length (p ++ s)) <=? Int.INT_MAX
    then Ok (p ++ s) else Fault OutOfBounds.
Proof.
  intros Ha Hb. unfold format_show.
  rewrite (format_alloc_cases _ _ (p ++ s))
    by (rewrite format_s_s, Ha, Hb; reflexivity).
  cbn [bind].
  destruct (Z.leb_spec (Z.of_nat (length (p ++ s))) Int.INT_MAX);
    [|reflexivity].
  apply cstring_holding_exact.
  destruct (cstring_ok _ _ Ha) as [Hp _], (cstring_ok _ _ Hb) as [Hs _].
  intros H0. apply in_app_or in H0. tauto.
Qed.

End Formatting.

(** * What is shown on the terminal *)

Section Display.

Lemma digit_not_nul (n : Z) : digit n <> NUL.
Proof.
  unfold digit.
  destruct (nth_in_or_default (Z.to_nat n)
              ["0"; "1"; "2"; "3"; "4"; "5"; "6"; "7"; "8"; "9"]%char
              "0"%char) as [Hin| ->]; [|discriminate].
  intros E. rewrite E in Hin. simpl in Hin.
  repeat (destruct Hin as [Hin|Hin]; [discriminate Hin|]). exact Hin.
Qed.

Lemma digits_not_nul (fuel : nat) :
  forall (n : Z) (acc : list ascii),
    ~ In NUL acc -> ~ In NUL (digits fuel n acc).
Proof.
  induction fuel as [|fuel IH]; intros n acc Hacc; [exact Hacc|].
  cbn [digits].
  assert (Hnext : ~ In NUL (digit (n mod 10) :: acc)).
  { intros [E|Hin]; [now apply (digit_not_nul (n mod 10))|now apply Hacc]. }
  destruct (n / 10 =? 0); [exact Hnext|now apply IH].
Qed.

Lemma digits_length (fuel : nat) :
  forall (n : Z) (acc : list ascii),
    (length (digits fuel n acc) <= fuel + length acc)%nat.
Proof.
  induction fuel as [|fuel IH]; intros n acc; [simpl; lia|].
  cbn [digits].
  destruct (n / 10 =? 0); [simpl; lia|].
  specialize (IH (n / 10) (digit (n mod 10) :: acc)). simpl in IH. lia.
Qed.

Lemma decimal_not_nul (z : Z) : ~ In NUL (decimal z).
Proof.
  unfold decimal. destruct (z <? 0).
  - intros [E|Hin]; [discriminate E|].
    now apply (digits_not_nul 10 (- z) []) in Hin.
  - now apply digits_not_nul.
Qed.

Lemma decimal_length (z : Z) : (length (decimal z) <= 11)%nat.
Proof.
  unfold decimal. destruct (z <? 0).
  - pose proof (digits_length 10 (- z) []). simpl in *. lia.
  - pose proof (digits_length 10 z []). simpl in *. lia.
Qed.

(** Ten digits are enough for every [int]: the digits are those of the
    number. *)
Lemma digits_value (fuel : nat) :
  forall (n : Z) (acc : list ascii),
    0 <= n < 10 ^ Z.of_nat fuel -> 0 < Z.of_nat fuel ->
    exists ds : list ascii,
      digits fuel n acc = ds ++ acc
      /\ ds <> []
      /\ (length ds <= fuel)%nat
      /\ 10 ^ Z.of_nat (length ds) > n.
Proof.
  induction fuel as [|fuel IH]; intros n acc Hn Hfuel; [lia|].
  cbn [digits].
  destruct (Z.eqb_spec (n / 10) 0) as [Hq|Hq].
  - exists [digit (n mod 10)]. repeat split; try (simpl; lia).
    + discriminate.
    + simpl length. change (10 ^ Z.of_nat 1) with 10.
      assert (n = 10 * (n / 10) + n mod 10) by (apply Z.div_mod; lia).
      pose proof (Z.mod_pos_bound n 10). lia.
  - assert (Hfuel' : 0 < Z.of_nat fuel).
    { destruct fuel; [|lia]. change (10 ^ Z.of_nat 1) with 10 in Hn.
      exfalso. apply Hq. apply Z.div_small. lia. }
    destruct (IH (n / 10) (digit (n mod 10) :: acc)) as (ds & E & Hne & Hl & Hv).
    + split; [apply Z.div_pos; lia|].
      apply Z.div_lt_upper_bound; [lia|].
      replace (Z.of_nat (S fuel)) with (Z.of_nat fuel + 1) in Hn by lia.
      rewrite Z.pow_add_r in Hn by lia. lia.
    + exact Hfuel'.
    + exists (ds ++ [digit (n mod 10)]). rewrite E, <- app_assoc.
      repeat split.
      * destruct ds; discriminate.
      * rewrite length_app. simpl. lia.
      * rewrite length_app. simpl length.
        replace (Z.of_nat (length ds + 1)) with (Z.of_nat (length ds) + 1)
          by lia.
        rewrite Z.pow_add_r by lia.
        assert (n = 10 * (n / 10) + n mod 10) by (apply Z.div_mod; lia).
        pose proof (Z.mod_pos_bound n 10). lia.
Qed.

(** The command a cursor function builds: its text and the number. *)
Lemma format_text_d (pre : list ascii) (z : Z) :
  ~ In "%"%char pre ->
  format (pre ++ ["%"; "d"]%char) [ArgD z] = Ok (pre ++ decimal z).
Proof.
  induction pre as [|c pre IH]; intros Hno.
  - simpl. now rewrite app_nil_r.
  - cbn [app format].
    destruct (Ascii.eqb_spec c "%"%char) as [->|_];
      [exfalso; apply Hno; now left|].
    rewrite IH by (intros H; apply Hno; now right). reflexivity.
Qed.

Lemma command_string (pre : list ascii) (z : Z) :
  ~ In NUL pre ->
  cstring (holding (pre ++ decimal z)) = Ok (pre ++ decimal z).
Proof.
  intros Hpre. apply cstring_holding_exact. intros H.
  apply in_app_or in H. destruct H as [H|H]; [now apply Hpre|].
  now apply (decimal_not_nul z).
Qed.

Lemma sfmt_command (fmt : string) (pre : list ascii) (z : Z) :
  list_ascii_of_string fmt = pre ++ ["%"; "d"]%char ->
  ~ In "%"%char pre ->
  (length pre <= 100)%nat ->
  Lib2.sfmt fmt [ArgD z] = Ok (holding (pre ++ decimal z)).
Proof.
  intros Hfmt Hno Hlen. unfold Lib2.sfmt.
  apply format_alloc_fits.
  - rewrite Hfmt. now apply format_text_d.
  - rewrite length_app. pose proof (decimal_length z).
    unfold Int.INT_MAX. lia.
Qed.

Lemma cursmv_command (n : Z) (direction : Lib2.directions) (w : world) :
  Lib2.cursmv n direction w
  = Ok (mk_world (w_tty w) (w_stderr w)
          (w_stdout w
           ++ [Command (str (match direction with
                             | Lib2.UP => "tput cuu "
                             | Lib2.DOWN => "tput cud "
                             | Lib2.LEFT => "tput cub "
                             | Lib2.RIGHT => "tput cuf "
                             end) ++ decimal (int_of n))])).
Proof.
  unfold Lib2.cursmv.
  destruct direction; cbv iota;
    match goal with
    | |- context [Lib2.sfmt ?f [ArgD ?z]] =>
        match goal with
        | |- context [Command (str ?s ++ _)] =>
            rewrite (sfmt_command f (str s) z eq_refl)
              by (simpl; (intuition discriminate) || lia)
        end
    end;
    cbn [bind]; unfold system;
    rewrite command_string by (simpl; intuition discriminate);
    reflexivity.
Qed.

(** [fprintf_clear] builds its string and, when that is a string, makes
    the output calls [shown] lists. *)
Lemma fprintf_clear_shows (fmt : string) (args : list arg) (w : world) :
  Lib2.fprintf_clear fmt args w
  = line <- format_show fmt args ;; Ok (show line w).
Proof.
  unfold Lib2.fprintf_clear, format_show.
  destruct (format_alloc fmt args) as [prompt| | | |]; try reflexivity.
  cbn [bind]. unfold Lib2.termclearfb, Lib2.termclearf, Lib2.termclearb.
  unfold system at 1. change (cstring (literal "tput el")) with (Ok (str "tput el")).
  cbn [bind]. unfold system at 1.
  change (cstring (literal "tput el1")) with (Ok (str "tput el1")).
  cbn [bind w_tty w_stderr w_stdout].
  unfold strlen.
  destruct (cstring prompt) as [line| | | |] eqn:Hline; try reflexivity.
  cbn [bind]. rewrite !cursmv_command. cbn [bind].
  unfold fprintf_stdout.
  assert (Hf : format (list_ascii_of_string "%s" ++ [NEWLINE]) [ArgS prompt]
               = Ok (line ++ [NEWLINE])).
  { simpl. rewrite Hline. reflexivity. }
  rewrite Hf.
  repeat (cbn [bind w_tty w_stderr w_stdout]; rewrite ?cursmv_command).
  unfold show, shown. rewrite <- !app_assoc. reflexivity.
Qed.

(** Within [int] the casts of the lengths are the identity. *)
Lemma shown_display (line : list ascii) :
  Z.of_nat (length line) + 1 <= Int.INT_MAX ->
  shown line = display line.
Proof.
  intros Hlen. unfold shown, display, Int.INT_MAX in *. cbv zeta.
  assert (E1 : int_of (Int.to_unsigned
                         (Int.to_uint64 (Z.of_nat (length line) + 1)))
               = Z.of_nat (length line) + 1).
  { unfold int_of, Int.to_unsigned, Int.to_uint64.
    rewrite (Z.mod_small (_ + 1) (2 ^ 64)) by lia.
    rewrite (Z.mod_small (_ + 1) (2 ^ 32)) by lia.
    rewrite Z.mod_small by lia. lia. }
  assert (E2 : int_of (Int.to_unsigned (Z.of_nat (length line)))
               = Z.of_nat (length line)).
  { unfold int_of, Int.to_unsigned.
    rewrite (Z.mod_small (Z.of_nat _) (2 ^ 32)) by lia.
    rewrite Z.mod_small by lia. lia. }
  now rewrite E1, E2.
Qed.

End Display.

(** * Properties of the line editor of [src/main.c] *)

Section Editing.

Lemma load_after_prefix (pre : list ascii) (x : ascii) (rest : buffer) :
  load (map Some pre ++ Some x :: rest) (Z.of_nat (length pre)) = Ok x.
Proof.
  unfold load. rewrite size_app, size_map_Some. unfold size. simpl length.
  destruct (Z.leb_spec 0 (Z.of_nat (length pre))); [|lia].
  destruct (Z.ltb_spec (Z.of_nat (length pre))
              (Z.of_nat (length pre) + Z.of_nat (S (length rest)))); [|lia].
  cbv [andb]. rewrite Nat2Z.id.
  rewrite app_nth2 by (rewrite length_map; lia).
  rewrite length_map, Nat.sub_diag. reflexivity.
Qed.

(** The loop of [sdelelem] when [elem] is the index of the last
    character: the characters before it are copied to [to_elem], nothing
    is stored in [from_elem]. *)
Lemma sdelelem_loop_last (t : list ascii) (c0 : ascii) (from : buffer) :
  forall post pre : list ascii,
    t = pre ++ post ->
    Lib2.sdelelem_loop
      (map Z.of_nat (seq (length pre) (length post + 1)))
      (holding (t ++ [c0])) (Z.of_nat (length t))
      (map Some pre ++ repeat None (length post + 1)) from
    = Ok (map Some t ++ [None], from).
Proof.
  induction post as [|x post IH]; intros pre Ht.
  - rewrite app_nil_r in Ht. subst pre. simpl.
    rewrite Z.ltb_irrefl.
    destruct (Z.gtb_spec (Z.of_nat (length t)) (Z.of_nat (length t)));
      [lia|reflexivity].
  - simpl length. simpl seq. simpl repeat. cbn [map Lib2.sdelelem_loop].
    assert (Hlt : Z.of_nat (length pre) < Z.of_nat (length t))
      by (subst t; rewrite length_app; simpl; lia).
    destruct (Z.ltb_spec (Z.of_nat (length pre)) (Z.of_nat (length t)));
      [|lia].
    destruct (Z.gtb_spec (Z.of_nat (length pre)) (Z.of_nat (length t)));
      [lia|].
    assert (Hsp : holding (t ++ [c0])
                  = map Some pre ++ Some x :: map Some (post ++ [c0; NUL])).
    { unfold holding. subst t.
      rewrite <- !app_assoc, map_app. simpl. reflexivity. }
    rewrite Hsp at 1. rewrite load_after_prefix. cbn [bind].
    rewrite store_after_prefix. cbn [bind].
    specialize (IH (pre ++ [x])).
    rewrite length_app in IH. simpl length in IH.
    replace (length pre + 1)%nat with (S (length pre)) in IH by lia.
    apply IH. subst t. now rewrite <- app_assoc.
Qed.

(** Deleting the last character of a line with [sdelelem]. *)
Lemma sdelelem_last (t : list ascii) (c0 : ascii) :
  ~ In NUL (t ++ [c0]) ->
  Z.of_nat (length (t ++ [c0])) <= Int.INT_MAX ->
  Lib2.sdelelem (holding (t ++ [c0])) (Z.of_nat (length t)) = Ok (holding t).
Proof.
  intros Hnul Hlen.
  assert (Hnt : ~ In NUL t) by (intros H; apply Hnul, in_or_app; now left).
  rewrite length_app in Hlen. simpl length in Hlen.
  unfold Int.INT_MAX in Hlen.
  unfold Lib2.sdelelem. rewrite strlen_holding by assumption. cbn [bind].
  rewrite length_app. simpl length.
  replace (Z.of_nat (length t + 1)) with (Z.of_nat (length t) + 1) by lia.
  unfold Int.to_unsigned, Int.to_uint64.
  rewrite (Z.mod_small (Z.of_nat (length t) + 1) (2 ^ 32)) by lia.
  rewrite (Z.mod_small (Z.of_nat (length t) + 1) (2 ^ 64)) by lia.
  replace (Z.of_nat (length t) + 1 - Z.of_nat (length t)) with 1 by lia.
  replace (1 - 1) with 0 by lia.
  rewrite Z.min_l by lia.
  rewrite malloc_small by (unfold Int.PTRDIFF_MAX; lia).
  unfold indices.
  replace (Z.to_nat (Z.of_nat (length t) + 1)) with (length t + 1)%nat by lia.
  pose proof (sdelelem_loop_last t c0 (malloc (1 mod 2 ^ 64)) t [] eq_refl)
    as Hloop.
  simpl length in Hloop. simpl map in Hloop at 2.
  rewrite app_nil_l in Hloop.
  rewrite Hloop. cbn [bind].
  destruct (Z.leb_spec (2 ^ 32) (Z.of_nat (length t) + 1)); [lia|].
  rewrite store_after_prefix. cbn [bind].
  change (store (malloc (1 mod 2 ^ 64)) (0 mod 2 ^ 64) NUL)
    with (Ok (A := buffer) [Some NUL]).
  cbn [bind]. unfold Lib2.sfmt.
  rewrite (format_alloc_fits _ _ t).
  - reflexivity.
  - rewrite format_s_s.
    rewrite cstring_holding by assumption. cbn [bind].
    change (cstring [Some NUL]) with (Ok (A := list ascii) []). cbn [bind].
    now rewrite app_nil_r.
  - unfold Int.INT_MAX. lia.
Qed.

(** [sdelelem] on the empty line, called as [scans] calls it: the index
    [strlen(btemp) - 1] wraps to 2^32 - 1, [to_elem] has no cell and the
    store [to_elem[elem] = 0] is outside it. *)
Lemma sdelelem_empty (sp : buffer) :
  cstring sp = Ok [] ->
  Lib2.sdelelem sp (Int.to_unsigned (Int.to_uint64 (0 - 1)))
  = Fault OutOfBounds.
Proof.
  intros Hs. unfold Lib2.sdelelem, strlen. rewrite Hs. reflexivity.
Qed.

End Editing.

Section Dispatch.

Lemma scanc_nowait_delivers (e : syscalls) (w : world) :
  fst (scanc_nowait e w) = delivered e.
Proof.
  unfold scanc_nowait, delivered.
  destruct (tcgetattr_ok e), (tcsetattr_now_ok e), (read_res e),
    (tcsetattr_drain_ok e); reflexivity.
Qed.

Lemma dispatch_newline (buf btemp : buffer) :
  Lib2.dispatch NEWLINE buf btemp = Ok (buf, btemp).
Proof. reflexivity. Qed.

(** Backspace on a line that is not empty removes its last character
    from [btemp] and leaves [*buf] alone. *)
Lemma dispatch_backspace_last (buf : buffer) (t : list ascii) (c0 : ascii) :
  ~ In NUL (t ++ [c0]) ->
  Z.of_nat (length (t ++ [c0])) <= Int.INT_MAX ->
  Lib2.dispatch BACKSPACE buf (holding (t ++ [c0])) = Ok (buf, holding t).
Proof.
  intros Hnul Hlen. unfold Lib2.dispatch.
  change (Ascii.eqb BACKSPACE BACKSPACE) with true. cbv iota.
  rewrite strlen_holding by assumption. cbn [bind].
  replace (Int.to_unsigned (Int.to_uint64 (Z.of_nat (length (t ++ [c0])) - 1)))
    with (Z.of_nat (length t)).
  - rewrite sdelelem_last by assumption. reflexivity.
  - rewrite length_app in *. simpl length in *.
    unfold Int.to_unsigned, Int.to_uint64, Int.INT_MAX in *.
    replace (Z.of_nat (length t + 1) - 1) with (Z.of_nat (length t)) by lia.
    rewrite (Z.mod_small (Z.of_nat (length t)) (2 ^ 64)) by lia.
    rewrite Z.mod_small by lia. reflexivity.
Qed.

(** Backspace on the empty line. *)
Lemma dispatch_backspace_empty (buf btemp : buffer) :
  cstring btemp = Ok [] ->
  Lib2.dispatch BACKSPACE buf btemp = Fault OutOfBounds.
Proof.
  intros Hs. unfold Lib2.dispatch.
  change (Ascii.eqb BACKSPACE BACKSPACE) with true. cbv iota.
  unfold strlen. rewrite Hs. cbn [bind]. simpl length.
  change (Z.of_nat 0 - 1) with (0 - 1).
  rewrite sdelelem_empty by assumption. reflexivity.
Qed.

(** Any other character, NUL included, goes through the [default]
    branch: [*buf] receives the line and the character, [btemp] a copy of
    [*buf] as a string. *)
Lemma dispatch_default (c : ascii) (buf btemp : buffer) (s : list ascii) :
  c <> BACKSPACE -> c <> NEWLINE ->
  cstring btemp = Ok s ->
  Lib2.dispatch c buf btemp
  = if Z.of_nat (length s) + 1 <=? Int.INT_MAX
    then Ok (holding (s ++ [c]),
             holding (if Ascii.eqb c NUL then s else s ++ [c]))
    else Fault OutOfBounds.
Proof.
  intros Hbs Hnl Hs. unfold Lib2.dispatch, Lib2.sfmt.
  destruct (Ascii.eqb_spec c BACKSPACE); [contradiction|].
  destruct (Ascii.eqb_spec c NEWLINE); [contradiction|].
  destruct (cstring_ok _ _ Hs) as [Hnul _].
  rewrite (format_alloc_cases _ _ (s ++ [c]))
    by (rewrite format_s_c, Hs; reflexivity).
  cbn [bind]. rewrite length_app. simpl length.
  replace (Z.of_nat (length s + 1)) with (Z.of_nat (length s) + 1) by lia.
  destruct (Z.leb_spec (Z.of_nat (length s) + 1) Int.INT_MAX) as [Hfit|Hfit].
  - assert (Hc : cstring (holding (s ++ [c]))
                 = Ok (if Ascii.eqb c NUL then s else s ++ [c])).
    { destruct (Ascii.eqb_spec c NUL) as [->|Hc].
      - unfold holding. rewrite map_app. now apply cstring_holding.
      - apply cstring_holding_exact. intros H0.
        apply in_app_or in H0. destruct H0 as [H0|[H0|[]]]; auto. }
    rewrite (format_alloc_fits _ _ (if Ascii.eqb c NUL then s else s ++ [c])).
    + reflexivity.
    + rewrite format_s. exact Hc.
    + destruct (Ascii.eqb c NUL); [|rewrite length_app; simpl length]; lia.
  - unfold format_alloc. rewrite format_s. reflexivity.
Qed.

(** The backspace branch never assigns [*buf]. *)
Lemma dispatch_backspace_keeps_buf (buf btemp buf' btemp' : buffer) :
  Lib2.dispatch BACKSPACE buf btemp = Ok (buf', btemp') -> buf' = buf.
Proof.
  unfold Lib2.dispatch.
  change (Ascii.eqb BACKSPACE BACKSPACE) with true. cbv iota.
  destruct (strlen btemp) as [len| | | |]; try discriminate. cbn [bind].
  destruct (Lib2.sdelelem btemp _) as [b| | | |]; try discriminate.
  cbn [bind]. intros H. now injection H as <- _.
Qed.

(** Every step of the editor that succeeds keeps the loop state
    consistent. *)
Lemma dispatch_editing (c : ascii) (buf btemp buf' btemp' : buffer)
    (shown : list ascii) :
  editing buf btemp shown ->
  Lib2.dispatch c buf btemp = Ok (buf', btemp') ->
  exists shown', editing buf' btemp' shown'.
Proof.
  intros (Hb & Hnul & Hlen & Hpre) Hd. subst btemp.
  destruct (Ascii.eqb_spec c BACKSPACE) as [->|Hbs].
  - destruct (exists_last (l := shown)) as (t & c0 & ->).
    + intros ->. rewrite dispatch_backspace_empty in Hd by reflexivity.
      discriminate.
    + rewrite dispatch_backspace_last in Hd by assumption.
      injection Hd as <- <-. exists t. split; [reflexivity|].
      split; [intros H; apply Hnul, in_or_app; now left|].
      split; [rewrite length_app in Hlen; lia|].
      right. destruct Hpre as [Hpre|[rest Hpre]].
      * destruct t; discriminate.
      * exists (c0 :: rest). rewrite Hpre, <- app_assoc. reflexivity.
  - destruct (Ascii.eqb_spec c NEWLINE) as [->|Hnl].
    + rewrite dispatch_newline in Hd. injection Hd as <- <-.
      exists shown. repeat split; assumption.
    + rewrite (dispatch_default c buf _ shown Hbs Hnl) in Hd
        by now apply cstring_holding_exact.
      destruct (Z.leb_spec (Z.of_nat (length shown) + 1) Int.INT_MAX)
        as [Hfit|Hfit]; [|discriminate].
      injection Hd as <- <-.
      exists (if Ascii.eqb c NUL then shown else shown ++ [c]).
      split; [reflexivity|].
      destruct (Ascii.eqb_spec c NUL) as [->|Hc].
      * split; [assumption|]. split; [assumption|].
        right. exists []. rewrite app_nil_r.
        unfold holding. rewrite map_app. now apply cstring_holding.
      * assert (Hn' : ~ In NUL (shown ++ [c])).
        { intros H0. apply in_app_or in H0.
          destruct H0 as [H0|[H0|[]]]; auto. }
        split; [assumption|].
        split; [rewrite length_app; simpl length; lia|].
        right. exists []. rewrite app_nil_r.
        now apply cstring_holding_exact.
Qed.

End Dispatch.

Section Loop.

Variable prompt : buffer.

(** One iteration of the loop of [scans], with the character named. *)
Lemma scans_loop_step (e : syscalls) (rest : list syscalls)
    (buf btemp : buffer) (w : world) :
  Lib2.scans_loop prompt (e :: rest) buf btemp w
  = line <- format_show "%s%s" [ArgS prompt; ArgS btemp] ;;
    ' (buf', btemp') <- Lib2.dispatch (delivered e) buf btemp ;;
    if Ascii.eqb (delivered e) NEWLINE
    then Ok (buf', btemp', snd (scanc_nowait e (show line w)))
    else Lib2.scans_loop prompt rest buf' btemp'
           (snd (scanc_nowait e (show line w))).
Proof.
  cbn [Lib2.scans_loop]. rewrite fprintf_clear_shows.
  destruct (format_show "%s%s" [ArgS prompt; ArgS btemp])
    as [line| | | |]; try reflexivity.
  cbn [bind].
  rewrite <- (scanc_nowait_delivers e (show line w)).
  destruct (scanc_nowait e (show line w)) as [userin w']. reflexivity.
Qed.

(** What a line that could be shown tells about its parts. *)
Lemma format_show_ok (a b : buffer) (line : list ascii) :
  format_show "%s%s" [ArgS a; ArgS b] = Ok line ->
  exists p s, cstring a = Ok p /\ cstring b = Ok s
              /\ Z.of_nat (length (p ++ s)) <= Int.INT_MAX
              /\ line = p ++ s.
Proof.
  intros H.
  destruct (cstring a) as [p| | | |] eqn:Ha;
    try (unfold format_show, format_alloc in H;
         rewrite format_s_s, Ha in H; discriminate).
  destruct (cstring b) as [s| | | |] eqn:Hb;
    try (unfold format_show, format_alloc in H;
         rewrite format_s_s, Ha, Hb in H; discriminate).
  rewrite (format_show_s_s a b p s Ha Hb) in H.
  destruct (Z.leb_spec (Z.of_nat (length (p ++ s))) Int.INT_MAX);
    [|discriminate].
  injection H as <-. exists p, s. repeat split; assumption.
Qed.

(** A run that ends with Enter after the keystrokes [pre] returns the
    state the loop is in after [pre]; any other continuation of [pre]
    resumes from that state. *)
Lemma scans_loop_resume (pre : list syscalls) :
  forall (buf btemp : buffer) (w : world) (shown : list ascii)
         (e1 : syscalls) (buf1 btemp1 : buffer) (w1 : world),
    editing buf btemp shown ->
    Forall (fun e => delivered e <> NEWLINE) pre ->
    delivered e1 = NEWLINE ->
    Lib2.scans_loop prompt (pre ++ [e1]) buf btemp w = Ok (buf1, btemp1, w1) ->
    (exists shown1, editing buf1 btemp1 shown1)
    /\ (exists line,
          format_show "%s%s" [ArgS prompt; ArgS btemp1] = Ok line)
    /\ exists wm, forall tail,
         Lib2.scans_loop prompt (pre ++ tail) buf btemp w
         = Lib2.scans_loop prompt tail buf1 btemp1 wm.
Proof.
  induction pre as [|e pre IH];
    intros buf btemp w shown e1 buf1 btemp1 w1 Hed Hpre He1 Hrun.
  - simpl app in Hrun. rewrite scans_loop_step in Hrun.
    destruct (format_show "%s%s" [ArgS prompt; ArgS btemp])
      as [line| | | |] eqn:Hline; try discriminate.
    cbn [bind] in Hrun. rewrite He1, dispatch_newline in Hrun.
    cbn [bind] in Hrun.
    change (Ascii.eqb NEWLINE NEWLINE) with true in Hrun. cbv iota in Hrun.
    injection Hrun as <- <- <-.
    split; [now exists shown|]. split; [now exists line|].
    exists w. reflexivity.
  - inversion Hpre as [|e' pre' Hne Hpre']; subst e' pre'.
    rewrite <- app_comm_cons in Hrun. rewrite scans_loop_step in Hrun.
    destruct (format_show "%s%s" [ArgS prompt; ArgS btemp])
      as [line| | | |] eqn:Hline; try discriminate.
    cbn [bind] in Hrun.
    destruct (Lib2.dispatch (delivered e) buf btemp)
      as [[buf2 btemp2]| | | |] eqn:Hd; try discriminate.
    cbn [bind] in Hrun.
    destruct (Ascii.eqb_spec (delivered e) NEWLINE); [contradiction|].
    destruct (dispatch_editing _ _ _ _ _ _ Hed Hd) as [shown2 Hed2].
    destruct (IH _ _ _ _ _ _ _ _ Hed2 Hpre' He1 Hrun)
      as (Hinv & Hshow & wm & Hres).
    split; [exact Hinv|]. split; [exact Hshow|].
    exists wm. intros tail.
    rewrite <- app_comm_cons, scans_loop_step, Hline. cbn [bind].
    rewrite Hd. cbn [bind].
    destruct (Ascii.eqb_spec (delivered e) NEWLINE); [contradiction|].
    apply Hres.
Qed.

(** The state [scans] enters its loop with. *)
Lemma editing_initial : editing (malloc 1) (holding []) [].
Proof.
  split; [reflexivity|]. split; [intros []|].
  split; [unfold Int.INT_MAX; simpl; lia|]. now left.
Qed.

Lemma no_enter_Forall (script : list syscalls) :
  no_enter script = true ->
  Forall (fun e => delivered e <> NEWLINE) script.
Proof.
  unfold no_enter. intros H. apply Forall_forall. intros e He.
  rewrite forallb_forall in H. specialize (H e He).
  destruct (Ascii.eqb_spec (delivered e) NEWLINE); [discriminate|assumption].
Qed.

Lemma scans_unfold (script : list syscalls) (w : world) :
  Lib2.scans prompt script w
  = ' (buf, _, w') <-
        Lib2.scans_loop prompt script (malloc 1) (holding []) w ;;
    Ok (buf, w').
Proof. reflexivity. Qed.

End Loop.

(** * The copy in [src/mycutils.c]: its formatting and its editor *)

Section OlderEditor.

(** [stringf] differs from [sfmt] for an output of exactly [INT_MAX]
    bytes, where [vsnprintf(...) + 1] overflows [int]. *)
Lemma stringf_cases fmt args (out : list ascii) :
  format (list_ascii_of_string fmt) args = Ok out ->
  Lib1.stringf fmt args
  = if Z.of_nat (length out) =? Int.INT_MAX then Fault SignedOverflow
    else format_alloc fmt args.
Proof.
  intros Hf. unfold Lib1.stringf, format_alloc. rewrite Hf. cbn [bind].
  unfold vsnprintf_size, Int.add_int, Int.INT_MIN, Int.INT_MAX.
  destruct (Z.eqb_spec (Z.of_nat (length out)) (2 ^ 31 - 1)) as [E|E].
  - rewrite E. reflexivity.
  - destruct (Z.leb_spec (Z.of_nat (length out)) (2 ^ 31 - 1)).
    + destruct (Z.leb_spec (- 2 ^ 31) (Z.of_nat (length out) + 1)); [|lia].
      destruct (Z.leb_spec (Z.of_nat (length out) + 1) (2 ^ 31 - 1)); [|lia].
      reflexivity.
    + reflexivity.
Qed.

Lemma stringf_fits fmt args (out : list ascii) :
  format (list_ascii_of_string fmt) args = Ok out ->
  Z.of_nat (length out) + 1 <= Int.INT_MAX ->
  Lib1.stringf fmt args = Ok (holding out).
Proof.
  intros Hf Hlen. rewrite (stringf_cases fmt args out Hf).
  destruct (Z.eqb_spec (Z.of_nat (length out)) Int.INT_MAX); [lia|].
  apply format_alloc_fits; [assumption|lia].
Qed.

Lemma stringf_command (fmt : string) (pre : list ascii) (z : Z) :
  list_ascii_of_string fmt = pre ++ ["%"; "d"]%char ->
  ~ In "%"%char pre ->
  (length pre <= 100)%nat ->
  Lib1.stringf fmt [ArgD z] = Ok (holding (pre ++ decimal z)).
Proof.
  intros Hfmt Hno Hlen. apply stringf_fits.
  - rewrite Hfmt. now apply format_text_d.
  - rewrite length_app. pose proof (decimal_length z).
    unfold Int.INT_MAX. lia.
Qed.

(** [promptf] returns for a prompt and a line that are strings and fit
    [int] with the terminator; it changes neither the terminal settings
    nor [stderr]. *)
Lemma promptf_returns (a b : buffer) (p s : list ascii) (w : world) :
  cstring a = Ok p -> cstring b = Ok s ->
  Z.of_nat (length (p ++ s)) + 1 <= Int.INT_MAX ->
  exists w1 : world,
    Lib1.promptf "%s%s" [ArgS a; ArgS b] w = Ok w1
    /\ w_tty w1 = w_tty w /\ w_stderr w1 = w_stderr w.
Proof.
  intros Ha Hb Hlen. unfold Lib1.promptf.
  rewrite (stringf_fits _ _ (p ++ s))
    by (rewrite ?format_s_s, ?Ha, ?Hb; (reflexivity || assumption)).
  cbn [bind].
  assert (Hline : cstring (holding (p ++ s)) = Ok (p ++ s)).
  { apply cstring_holding_exact.
    destruct (cstring_ok _ _ Ha) as [Hp _], (cstring_ok _ _ Hb) as [Hs _].
    intros H0. apply in_app_or in H0. tauto. }
  unfold Lib1.termclearl, system at 1.
  change (cstring (literal "tput el1")) with (Ok (str "tput el1")).
  cbn [bind]. unfold strlen. rewrite Hline. cbn [bind].
  unfold Lib1.cursputb, Lib1.cursputu, Lib1.cursputf.
  rewrite (stringf_command "tput cub %d" (str "tput cub ") _ eq_refl)
    by (simpl; (intuition discriminate) || lia).
  rewrite (stringf_command "tput cuu %d" (str "tput cuu ") _ eq_refl)
    by (simpl; (intuition discriminate) || lia).
  rewrite (stringf_command "tput cuf %d" (str "tput cuf ") _ eq_refl)
    by (simpl; (intuition discriminate) || lia).
  cbn [bind]. unfold system.
  rewrite !command_string by (simpl; intuition discriminate).
  cbn [bind]. unfold fprintf_stdout.
  assert (Hf : format (list_ascii_of_string "%s" ++ [NEWLINE])
                 [ArgS (holding (p ++ s))]
               = Ok ((p ++ s) ++ [NEWLINE])).
  { simpl. rewrite Hline. reflexivity. }
  rewrite Hf. cbn [bind].
  eexists. split; [reflexivity|]. split; reflexivity.
Qed.

(** [stringrmlast] copies the string, NUL included, into a block of
    [strlen] cells: on a line that is not empty the copy runs one byte
    past the block. *)
Lemma stringrmlast_overruns (t : list ascii) (c : ascii) :
  ~ In NUL (t ++ [c]) ->
  Z.of_nat (length (t ++ [c])) <= Int.PTRDIFF_MAX ->
  Lib1.stringrmlast (holding (t ++ [c])) = Fault OutOfBounds.
Proof.
  intros Hnul Hlen. unfold Lib1.stringrmlast.
  rewrite strlen_holding by assumption. cbn [bind].
  destruct (Z.gtb_spec (Z.of_nat (length (t ++ [c]))) 0);
    [|rewrite length_app in *; simpl length in *; lia].
  unfold strcpy. rewrite cstring_holding_exact by assumption. cbn [bind].
  rewrite malloc_small by lia. rewrite Nat2Z.id.
  pose proof (store_bytes_overrun (t ++ [c]) [] NUL) as Hover.
  simpl in Hover. rewrite Hover. reflexivity.
Qed.

(** The [default] branch of [src/mycutils.c] builds the new [*buf] with
    [stringf] and copies it into a block of as many cells as the string in
    [*buf] has characters: the terminating NUL falls outside it.  For a
    line of [INT_MAX - 1] characters [stringf] overflows first. *)
Lemma older_default_branch_overruns (c : ascii) (buf btemp : buffer)
    (s : list ascii) :
  c <> BACKSPACE -> c <> NEWLINE ->
  cstring btemp = Ok s ->
  Z.of_nat (length s) + 1 <= Int.INT_MAX ->
  Lib1.dispatch c buf btemp
  = Fault (if Z.of_nat (length s) + 1 =? Int.INT_MAX then SignedOverflow
           else OutOfBounds).
Proof.
  intros Hbs Hnl Hs Hlen. unfold Lib1.dispatch.
  destruct (Ascii.eqb_spec c BACKSPACE); [contradiction|].
  destruct (Ascii.eqb_spec c NEWLINE); [contradiction|].
  destruct (cstring_ok _ _ Hs) as [Hnul _].
  rewrite (stringf_cases _ _ (s ++ [c]))
    by (rewrite format_s_c, Hs; reflexivity).
  rewrite length_app. simpl length.
  replace (Z.of_nat (length s + 1)) with (Z.of_nat (length s) + 1) by lia.
  destruct (Z.eqb_spec (Z.of_nat (length s) + 1) Int.INT_MAX) as [E|E];
    [reflexivity|].
  rewrite (format_alloc_fits _ _ (s ++ [c]))
    by (rewrite ?format_s_c, ?Hs, ?length_app; simpl; (reflexivity || lia)).
  cbn [bind].
  assert (Hc : exists l, cstring (holding (s ++ [c])) = Ok l
                         /\ Z.of_nat (length l) <= Int.INT_MAX).
  { destruct (Ascii.eqb_spec c NUL) as [->|Hc].
    - exists s. split; [|lia].
      unfold holding. rewrite map_app. now apply cstring_holding.
    - exists (s ++ [c]). split; [|rewrite length_app; simpl length; lia].
      apply cstring_holding_exact. intros H0.
      apply in_app_or in H0. destruct H0 as [H0|[H0|[]]]; auto. }
  destruct Hc as (l & Hl & Hfit).
  unfold strlen, strcpy. rewrite Hl. cbn [bind].
  rewrite malloc_small by (unfold Int.PTRDIFF_MAX, Int.INT_MAX in *; lia).
  rewrite Nat2Z.id.
  pose proof (store_bytes_overrun l [] NUL) as Hover.
  simpl in Hover. rewrite Hover. reflexivity.
Qed.

(** [scans] of [src/mycutils.c] shows [btemp] before anything was
    stored in it: its first prompt reads an indeterminate byte, whatever
    the input. *)
Lemma older_scans_reads_unwritten_btemp (prompt : buffer) (p : list ascii)
    (script : list syscalls) (w : world) :
  cstring prompt = Ok p ->
  Lib1.scans prompt script w = Fault Indeterminate.
Proof.
  intros Hp. unfold Lib1.scans.
  assert (Hshow : Lib1.promptf "%s%s" [ArgS prompt; ArgS (malloc 1)] w
                  = Fault Indeterminate).
  { unfold Lib1.promptf, Lib1.stringf.
    rewrite format_s_s, Hp. reflexivity. }
  destruct script as [|e script]; cbn [Lib1.scans_loop];
    rewrite Hshow; reflexivity.
Qed.

End OlderEditor.

(** * The line editor: scripted sessions *)

(** One iteration of the loop on concrete blocks: the branch taken and
    the test of the loop are evaluated, the environment stays symbolic.
    [iterate] also evaluates the line shown, for a concrete prompt;
    [iterate_with Hp] takes it from [Hp : cstring prompt = Ok p]. *)
Ltac evaluate t :=
  let v := eval vm_compute in t in
  replace t with v by (vm_compute; reflexivity).

Ltac switch_and_test :=
  cbn [bind];
  match goal with
  | |- context [delivered ?e] => evaluate (delivered e)
  end;
  match goal with
  | |- context [Lib2.dispatch ?c ?b ?t] => evaluate (Lib2.dispatch c b t)
  end;
  cbn [bind];
  try match goal with
      | |- context [Ascii.eqb ?a ?b] => evaluate (Ascii.eqb a b)
      end;
  cbv iota.

Ltac iterate :=
  rewrite scans_loop_step;
  match goal with
  | |- context [format_show ?f ?a] => evaluate (format_show f a)
  end;
  switch_and_test.

Ltac iterate_with Hp :=
  rewrite scans_loop_step;
  match goal with
  | |- context [format_show _ [ArgS ?a; ArgS ?b]] =>
      let r := eval vm_compute in (cstring b) in
      match r with
      | Ok ?l => rewrite (format_show_s_s a b _ l Hp eq_refl)
      end
  end;
  rewrite length_app; simpl length;
  match goal with
  | |- context [?x <=? Int.INT_MAX] =>
      destruct (Z.leb_spec x Int.INT_MAX); [|unfold Int.INT_MAX in *; lia]
  end;
  switch_and_test.

Section EditorClaims.

(** With the keystrokes [a], [b], backspace, [c], Enter, whatever the
    prompt (a string short enough to be shown with the line) and whatever
    the state of the terminal, [scans] of [src/main.c] returns a block that
    holds exactly the string "ac". *)
Lemma newer_scans_ab_backspace_c (prompt : buffer) (p : list ascii)
    (w : world) :
  cstring prompt = Ok p ->
  Z.of_nat (length p) + 2 <= Int.INT_MAX ->
  exists w' : world,
    Lib2.scans prompt (keys ["a"; "b"; BACKSPACE; "c"; NEWLINE]%char) w
    = Ok (holding (str "ac"), w')
    /\ cstring (holding (str "ac")) = Ok (str "ac").
Proof.
  intros Hp Hlen. eexists. split; [|reflexivity].
  rewrite scans_unfold. change (keys ?l) with (map key l). cbn [map].
  do 5 iterate_with Hp. reflexivity.
Qed.

(** C2.  The claim: on the keystrokes [a], [b], backspace, [c], Enter,
    [scans] returns "ac".  [scans] of [src/mycutils.c] on that script,
    whatever the prompt and the state of the terminal: it shows [btemp]
    before anything is stored in it, so its first action reads an
    indeterminate byte; and were [btemp] the empty string, the first key
    would be copied into a block one cell too small.  [scans] of
    [src/main.c] returns a block that holds exactly "ac": the backspace
    removed the [b] and the newline was not stored. *)
Theorem scans_ab_backspace_c_older_copy :
  forall (prompt : buffer) (p : list ascii) (w : world),
    cstring prompt = Ok p ->
    Z.of_nat (length p) + 2 <= Int.INT_MAX ->
    Lib1.scans prompt (keys ["a"; "b"; BACKSPACE; "c"; NEWLINE]%char) w
    = Fault Indeterminate
    /\ Lib1.dispatch "a" (malloc 1) (holding []) = Fault OutOfBounds
    /\ exists w' : world,
         Lib2.scans prompt (keys ["a"; "b"; BACKSPACE; "c"; NEWLINE]%char) w
         = Ok (holding (str "ac"), w')
         /\ cstring (holding (str "ac")) = Ok (str "ac").
Proof.
  intros prompt p w Hp Hlen. split; [|split].
  - now apply (older_scans_reads_unwritten_btemp prompt p).
  - vm_compute. reflexivity.
  - now apply (newer_scans_ab_backspace_c prompt p).
Qed.

Lemma scans_ab_backspace_c_older_copy_witness :
  Lib1.scans the_prompt (keys ["a"; "b"; BACKSPACE; "c"; NEWLINE]%char) world0
  = Fault Indeterminate
  /\ Lib1.dispatch "a" (malloc 1) (holding []) = Fault OutOfBounds
  /\ exists w' : world,
       Lib2.scans the_prompt (keys ["a"; "b"; BACKSPACE; "c"; NEWLINE]%char)
         world0
       = Ok (holding (str "ac"), w')
       /\ cstring (holding (str "ac")) = Ok (str "ac").
Proof.
  apply (scans_ab_backspace_c_older_copy the_prompt
           (str "Write a name for the file: ") world0).
  - reflexivity.
  - unfold Int.INT_MAX. simpl. lia.
Defined.

(** C3.  The claim: a backspace on the empty line is a no-op without
    underflow, out-of-range index or crash, and backspace, backspace, [x],
    Enter yields "x".  [scans] of [src/main.c] on that script: the first
    backspace passes [strlen(btemp) - 1], wrapped to 2^32 - 1, to
    [sdelelem], which stores outside a block without cells. *)
Theorem scans_backspace_on_empty_line :
  forall w : world,
    Int.to_unsigned (Int.to_uint64 (0 - 1)) = 4294967295
    /\ Lib2.dispatch BACKSPACE (malloc 1) (holding []) = Fault OutOfBounds
    /\ Lib2.scans the_prompt
         (keys [BACKSPACE; BACKSPACE; "x"; NEWLINE]%char) w
       = Fault OutOfBounds.
Proof.
  intros w. split; [reflexivity|]. split; [reflexivity|].
  rewrite scans_unfold. change (keys ?l) with (map key l). cbn [map].
  iterate. reflexivity.
Qed.

(** The older [stringrmlast] of [src/mycutils.c] tests for the empty
    string first and leaves it alone. *)
Lemma stringrmlast_empty (s : buffer) :
  cstring s = Ok [] -> Lib1.stringrmlast s = Ok s.
Proof.
  intros Hs. unfold Lib1.stringrmlast, strlen. rewrite Hs. reflexivity.
Qed.

(** C6.  The claim: after Enter alone the caller's buffer holds the
    empty string.  [scans] of [src/main.c] on that script: the block
    returned is the one-byte allocation made on entry, in which nothing
    was ever stored, so it holds no string.  [scans] of [src/mycutils.c]
    stores nothing in [btemp] either, and reads it for its first prompt. *)
Theorem scans_enter_alone :
  forall w : world,
    (exists w' : world,
       Lib2.scans the_prompt (keys [NEWLINE]) w = Ok (malloc 1, w'))
    /\ malloc 1 = [None]
    /\ cstring (malloc 1) = Fault Indeterminate
    /\ Lib1.scans the_prompt (keys [NEWLINE]) w = Fault Indeterminate.
Proof.
  intros w. split; [|repeat split; reflexivity].
  eexists.
  rewrite scans_unfold. change (keys ?l) with (map key l). cbn [map].
  iterate. reflexivity.
Qed.

(** C7.  The claim: when the [read] of a call of [scanc_nowait] fails,
    the call logs it and returns 0, and in the loop of [scans] that 0 is
    appended to the line as a NUL byte and the session goes on.  In
    [src/mycutils.c] the call does write the [read()] diagnostic and return
    the character 0, which takes the [default] branch, where [stringf]
    builds the line followed by a NUL byte (and the terminator) for [*buf];
    but the copy of that string into [btemp], a block of as many cells
    as the string has characters, stores its terminator outside the block,
    for every line: the
    iteration has no defined result and the session does not go on. *)
Theorem failed_read_in_older_editor :
  forall (prompt : buffer) (e : syscalls) (rest : list syscalls)
         (buf btemp : buffer) (w : world) (p s : list ascii),
    read_res e = ReadError ->
    cstring prompt = Ok p ->
    cstring btemp = Ok s ->
    Z.of_nat (length p) + Z.of_nat (length s) + 2 <= Int.INT_MAX ->
    fst (scanc_nowait e w) = NUL
    /\ In "read()"%string (w_stderr (snd (scanc_nowait e w)))
    /\ Lib1.stringf "%s%c" [ArgS btemp; ArgC NUL]
       = Ok (map Some (s ++ [NUL; NUL]))
    /\ Lib1.dispatch NUL buf btemp = Fault OutOfBounds
    /\ Lib1.scans_loop prompt (e :: rest) buf btemp w = Fault OutOfBounds.
Proof.
  intros prompt e rest buf btemp w p s Hrd Hp Hs Hlen.
  assert (Hdel : delivered e = NUL) by (unfold delivered; now rewrite Hrd).
  assert (Hdisp : Lib1.dispatch NUL buf btemp = Fault OutOfBounds).
  { rewrite (older_default_branch_overruns NUL buf btemp s)
      by (discriminate || assumption || lia).
    destruct (Z.eqb_spec (Z.of_nat (length s) + 1) Int.INT_MAX);
      [lia|reflexivity]. }
  split; [now rewrite scanc_nowait_delivers|].
  split.
  { unfold scanc_nowait. rewrite Hrd.
    destruct (tcgetattr_ok e), (tcsetattr_now_ok e), (tcsetattr_drain_ok e);
      cbn [w_stderr snd perror];
      repeat (apply in_or_app; (right; now left) || left);
      apply in_or_app; right; now left. }
  split.
  { rewrite (stringf_fits _ _ (s ++ [NUL])).
    - unfold holding. rewrite <- app_assoc. reflexivity.
    - rewrite format_s_c, Hs. reflexivity.
    - rewrite length_app. simpl length. lia. }
  split; [exact Hdisp|].
  cbn [Lib1.scans_loop].
  destruct (promptf_returns prompt btemp p s w Hp Hs) as (w1 & Hshow & _);
    [rewrite length_app; lia|].
  rewrite Hshow. cbn [bind].
  pose proof (scanc_nowait_delivers e w1) as Hc.
  destruct (scanc_nowait e w1) as [userin w2]. cbn [fst] in Hc.
  rewrite Hc, Hdel, Hdisp. reflexivity.
Qed.

Lemma failed_read_in_older_editor_witness :
  let e := mk_syscalls true true ReadError true in
  fst (scanc_nowait e world0) = NUL
  /\ In "read()"%string (w_stderr (snd (scanc_nowait e world0)))
  /\ Lib1.stringf "%s%c" [ArgS (holding (str "a")); ArgC NUL]
     = Ok (map Some (str "a" ++ [NUL; NUL]))
  /\ Lib1.dispatch NUL (holding (str "a")) (holding (str "a"))
     = Fault OutOfBounds
  /\ Lib1.scans_loop the_prompt (e :: keys [NEWLINE])
       (holding (str "a")) (holding (str "a")) world0
     = Fault OutOfBounds.
Proof.
  cbv zeta.
  apply (failed_read_in_older_editor the_prompt
           (mk_syscalls true true ReadError true) (keys [NEWLINE])
           (holding (str "a")) (holding (str "a")) world0
           (str "Write a name for the file: ") (str "a")).
  - reflexivity.
  - reflexivity.
  - reflexivity.
  - unfold Int.INT_MAX. simpl. lia.
Defined.

(** Let the keystrokes [pre] (no Enter among them) leave a line that
    ends with the character [c] on display, i.e. in [btemp].  When a
    backspace and Enter follow, the backspace of [src/main.c] changes
    [btemp] only: the display loses [c], and [scans] returns the very block
    [*buf] it would have returned without the backspace, whose string still
    has [c] at that place.  The prompt and the line on display are strings
    that fit [int]. *)
Lemma newer_trailing_backspace (prompt : buffer) (pre : list syscalls)
    (w w1 : world) (buf1 btemp1 : buffer) (t : list ascii) (c : ascii) :
  no_enter pre = true ->
  Lib2.scans_loop prompt (pre ++ [key NEWLINE]) (malloc 1) (holding []) w
  = Ok (buf1, btemp1, w1) ->
  cstring btemp1 = Ok (t ++ [c]) ->
  (exists (w2 : world) (rest : list ascii),
     Lib2.scans_loop prompt (pre ++ [key BACKSPACE; key NEWLINE])
       (malloc 1) (holding []) w
     = Ok (buf1, holding t, w2)
     /\ Lib2.scans prompt (pre ++ [key BACKSPACE; key NEWLINE]) w
        = Ok (buf1, w2)
     /\ cstring buf1 = Ok (t ++ c :: rest))
  /\ btemp1 = holding (t ++ [c])
  /\ ~ In NUL (t ++ [c])
  /\ Z.of_nat (length (t ++ [c])) <= Int.INT_MAX
  /\ exists p : list ascii, cstring prompt = Ok p.
Proof.
  intros Hpre Hrun Hshown.
  apply no_enter_Forall in Hpre.
  destruct (scans_loop_resume prompt pre _ _ _ _ (key NEWLINE) _ _ _
              editing_initial Hpre eq_refl Hrun)
    as ([shown1 Hed] & [line Hline] & wm & Hres).
  destruct Hed as (Hb & Hnul & Hlen & Hprefix). subst btemp1.
  rewrite cstring_holding_exact in Hshown by assumption.
  injection Hshown as ->.
  destruct Hprefix as [Hnil|[rest Hrest]]; [destruct t; discriminate|].
  destruct (format_show_ok _ _ _ Hline) as (p & s & Hp & Hs & Hfit & ->).
  rewrite cstring_holding_exact in Hs by assumption. injection Hs as <-.
  assert (Hnt : ~ In NUL t) by (intros H; apply Hnul, in_or_app; now left).
  assert (Hline2 : format_show "%s%s" [ArgS prompt; ArgS (holding t)]
                   = Ok (p ++ t)).
  {     rewrite (format_show_s_s _ _ p t Hp (cstring_holding_exact t Hnt)).
    rewrite !length_app in *. simpl length in *.
    destruct (Z.leb_spec (Z.of_nat (length p + length t)) Int.INT_MAX);
      [reflexivity|lia]. }
  assert (Hloop :
    Lib2.scans_loop prompt (pre ++ [key BACKSPACE; key NEWLINE])
      (malloc 1) (holding []) w
    = Ok (buf1, holding t,
          snd (scanc_nowait (key NEWLINE)
                 (show (p ++ t)
                    (snd (scanc_nowait (key BACKSPACE)
                            (show (p ++ t ++ [c]) wm))))))).
  { rewrite Hres, scans_loop_step, Hline. cbn [bind].
    change (delivered (key BACKSPACE)) with BACKSPACE.
    rewrite dispatch_backspace_last by assumption. cbn [bind].
    change (Ascii.eqb BACKSPACE NEWLINE) with false. cbv iota.
    rewrite scans_loop_step, Hline2. cbn [bind].
    change (delivered (key NEWLINE)) with NEWLINE.
    rewrite dispatch_newline. reflexivity. }
  split.
  { eexists. exists rest.
    split; [exact Hloop|]. split; [|rewrite Hrest, <- app_assoc; reflexivity].
    rewrite scans_unfold, Hloop. reflexivity. }
  split; [reflexivity|]. split; [assumption|]. split; [assumption|].
  now exists p.
Qed.

(** C10.  The claim: a backspace changes [btemp] only, so when the last
    key before Enter is a backspace on a line that is not empty, the string
    returned still has the character removed from the display.  Let the
    keystrokes [pre] (no Enter among them) leave a line ending with [c] on
    display in [src/main.c].  There a backspace and Enter return the very
    block [*buf] Enter alone would have returned, whose string still has
    [c].  [scans] of [src/mycutils.c] returns nothing on these keys: it
    reads [btemp] before anything is stored in it, and on the same line its
    backspace branch, [stringrmlast], copies the line into a block one cell
    too small. *)
Theorem trailing_backspace_older_copy :
  forall (prompt : buffer) (pre : list syscalls) (w w1 : world)
         (buf1 btemp1 : buffer) (t : list ascii) (c : ascii),
    no_enter pre = true ->
    Lib2.scans_loop prompt (pre ++ [key NEWLINE]) (malloc 1) (holding []) w
    = Ok (buf1, btemp1, w1) ->
    cstring btemp1 = Ok (t ++ [c]) ->
    (exists (w2 : world) (rest : list ascii),
       Lib2.scans_loop prompt (pre ++ [key BACKSPACE; key NEWLINE])
         (malloc 1) (holding []) w
       = Ok (buf1, holding t, w2)
       /\ Lib2.scans prompt (pre ++ [key BACKSPACE; key NEWLINE]) w
          = Ok (buf1, w2)
       /\ cstring buf1 = Ok (t ++ c :: rest))
    /\ Lib1.scans prompt (pre ++ [key BACKSPACE; key NEWLINE]) w
       = Fault Indeterminate
    /\ Lib1.dispatch BACKSPACE buf1 btemp1 = Fault OutOfBounds.
Proof.
  intros prompt pre w w1 buf1 btemp1 t c Hpre Hrun Hshown.
  destruct (newer_trailing_backspace prompt pre w w1 buf1 btemp1 t c
              Hpre Hrun Hshown)
    as (Hnew & -> & Hnul & Hlen & p & Hp).
  split; [exact Hnew|]. split.
  - now apply (older_scans_reads_unwritten_btemp prompt p).
  - unfold Lib1.dispatch.
    change (Ascii.eqb BACKSPACE BACKSPACE) with true. cbv iota.
    rewrite stringrmlast_overruns;
      [reflexivity|assumption|unfold Int.PTRDIFF_MAX, Int.INT_MAX in *; lia].
Qed.

Lemma trailing_backspace_older_copy_witness :
  (exists (w2 : world) (rest : list ascii),
     Lib2.scans_loop the_prompt
       (keys ["a"; "b"]%char ++ [key BACKSPACE; key NEWLINE])
       (malloc 1) (holding []) world0
     = Ok (holding (str "ab"), holding (str "a"), w2)
     /\ Lib2.scans the_prompt
          (keys ["a"; "b"]%char ++ [key BACKSPACE; key NEWLINE]) world0
        = Ok (holding (str "ab"), w2)
     /\ cstring (holding (str "ab")) = Ok (str "a" ++ "b"%char :: rest))
  /\ Lib1.scans the_prompt
       (keys ["a"; "b"]%char ++ [key BACKSPACE; key NEWLINE]) world0
     = Fault Indeterminate
  /\ Lib1.dispatch BACKSPACE (holding (str "ab")) (holding (str "ab"))
     = Fault OutOfBounds.
Proof.
  eapply (trailing_backspace_older_copy the_prompt
            (keys ["a"; "b"]%char) world0 _
            (holding (str "ab")) (holding (str "ab")) (str "a") "b"%char).
  - reflexivity.
  - vm_compute. reflexivity.
  - reflexivity.
Defined.

End EditorClaims.

(** * The terminal settings around one read *)

Section Terminal.

(** The settings [scanc_nowait] hands to its second [tcsetattr]: those
    it obtained, with ICANON and ECHO cleared and set again, and with
    VMIN = 1 and VTIME = 0. *)
Lemma scanc_nowait_settings (e : syscalls) (w : world) :
  tcgetattr_ok e = true -> tcsetattr_drain_ok e = true ->
  w_tty (snd (scanc_nowait e w))
  = set_lflag (set_cc (set_cc (w_tty w) VMIN 1) VTIME 0)
      (Z.lor (Z.lor (Z.land (Z.land (c_lflag (w_tty w)) (tc_not ICANON))
                       (tc_not ECHO)) ICANON) ECHO).
Proof.
  intros Hget Hset. destruct w as [[i o c l ln cc si so] err out].
  unfold scanc_nowait. rewrite Hget, Hset.
  destruct (tcsetattr_now_ok e), (read_res e);
    cbn [snd w_tty w_stderr w_stdout set_lflag set_cc c_iflag c_oflag
         c_cflag c_lflag c_line c_cc c_ispeed c_ospeed];
    reflexivity.
Qed.

(** When no call reaches the terminal, its settings stay. *)
Lemma scanc_nowait_not_a_terminal (e : syscalls) (w : world) :
  tcsetattr_now_ok e = false -> tcsetattr_drain_ok e = false ->
  w_tty (snd (scanc_nowait e w)) = w_tty w.
Proof.
  intros Hnow Hdrain. unfold scanc_nowait. rewrite Hnow, Hdrain.
  destruct (tcgetattr_ok e), (read_res e); cbn [snd w_tty]; reflexivity.
Qed.

Lemma tc_not_bit (flag n : Z) :
  0 <= n < 32 ->
  Z.testbit (tc_not flag) n = negb (Z.testbit flag n).
Proof.
  intros Hn. unfold tc_not, Int.to_unsigned.
  rewrite Z.mod_pow2_bits_low by lia.
  apply Z.lnot_spec. lia.
Qed.

(** Clearing and then setting ICANON and ECHO gives back a flag word in
    which both were set. *)
Lemma lflag_cleared_and_set (l : Z) :
  0 <= l < 2 ^ 32 ->
  Z.testbit l 1 = true -> Z.testbit l 3 = true ->
  Z.lor (Z.lor (Z.land (Z.land l (tc_not ICANON)) (tc_not ECHO)) ICANON) ECHO
  = l.
Proof.
  intros Hl H1 H3. apply Z.bits_inj'. intros n Hn.
  rewrite !Z.lor_spec, !Z.land_spec.
  destruct (Z.eq_dec n 1) as [->|Hn1].
  { rewrite H1. change (Z.testbit ICANON 1) with true.
    now rewrite orb_true_r. }
  destruct (Z.eq_dec n 3) as [->|Hn3].
  { rewrite H3. change (Z.testbit ECHO 3) with true.
    now rewrite orb_true_r. }
  assert (HI : Z.testbit ICANON n = false).
  { change ICANON with (2 ^ 1). apply Z.pow2_bits_false. lia. }
  assert (HE : Z.testbit ECHO n = false).
  { change ECHO with (2 ^ 3). apply Z.pow2_bits_false. lia. }
  rewrite HI, HE, !orb_false_r.
  destruct (Z.lt_ge_cases n 32) as [Hlow|Hhigh].
  - rewrite !tc_not_bit by lia. rewrite HI, HE. simpl.
    now rewrite !andb_true_r.
  - assert (Hz : Z.testbit l n = false).
    { rewrite <- (Z.mod_small l (2 ^ 32)) by lia.
      apply Z.mod_pow2_bits_high. lia. }
    now rewrite Hz.
Qed.

Lemma set_same (i : nat) (v : Z) (cc : list Z) :
  (i < length cc)%nat -> nth i cc 0 = v ->
  firstn i cc ++ v :: skipn (S i) cc = cc.
Proof.
  revert cc. induction i as [|i IH]; intros [|x cc] Hi Hv;
    simpl in *; try lia.
  - now subst.
  - f_equal. apply IH; [lia|assumption].
Qed.

(** On a terminal in canonical mode with echo, VMIN = 1 and VTIME = 0,
    as the cooked mode of Linux has them, the settings after the call are
    those before it. *)
Lemma scanc_nowait_restores_cooked (e : syscalls) (w : world) :
  tcgetattr_ok e = true -> tcsetattr_drain_ok e = true ->
  0 <= c_lflag (w_tty w) < 2 ^ 32 ->
  Z.testbit (c_lflag (w_tty w)) 1 = true ->
  Z.testbit (c_lflag (w_tty w)) 3 = true ->
  length (c_cc (w_tty w)) = NCCS ->
  nth VMIN (c_cc (w_tty w)) 0 = 1 ->
  nth VTIME (c_cc (w_tty w)) 0 = 0 ->
  w_tty (snd (scanc_nowait e w)) = w_tty w.
Proof.
  intros Hget Hset Hl H1 H3 Hlen Hmin Htime.
  rewrite scanc_nowait_settings by assumption.
  rewrite lflag_cleared_and_set by assumption.
  destruct (w_tty w) as [i o c l ln cc si so].
  cbn [c_cc c_lflag] in *. unfold set_lflag, set_cc.
  cbn [c_iflag c_oflag c_cflag c_lflag c_line c_cc c_ispeed c_ospeed].
  rewrite (set_same VMIN 1 cc) by (unfold VMIN, NCCS in *; lia || assumption).
  rewrite (set_same VTIME 0 cc) by (unfold VTIME, NCCS in *; lia || assumption).
  reflexivity.
Qed.

(** C4.  The claim: after every call the settings equal those observed
    before it, for every initial state.  [scanc_nowait] on a terminal
    whose echo is switched off (cooked mode after [stty -echo]), every
    terminal call succeeding and whatever the read does: the call sets
    ECHO, so the settings afterwards differ from those before. *)
Theorem scanc_nowait_switches_echo_on :
  forall (r : read_result) (err : list string) (out : list output),
    let w := mk_world (set_lflag cooked 35379) err out in
    let e := mk_syscalls true true r true in
    Z.land (c_lflag (w_tty w)) ECHO = 0
    /\ Z.land (c_lflag (w_tty (snd (scanc_nowait e w)))) ECHO = ECHO
    /\ w_tty (snd (scanc_nowait e w)) <> w_tty w.
Proof.
  intros r err out w e.
  assert (Hl : c_lflag (w_tty (snd (scanc_nowait e w))) = 35387)
    by (destruct r; reflexivity).
  split; [reflexivity|]. split; [rewrite Hl; reflexivity|].
  intros Heq. rewrite Heq in Hl. discriminate Hl.
Qed.

End Terminal.

(** * Further properties of the timer *)

Section TimerMore.

(** X1.  The two copies of [check_timer], one written with a flag and
    one with an early return, compute the same function on every clock
    reading, start instant and threshold. *)
Theorem check_timer_same_in_both_copies :
  forall (clk : clock_reading) (start : timespec) (wait_time : Z),
    Lib1.check_timer clk start wait_time
    = Lib2.check_timer clk start wait_time.
Proof.
  intros. apply check_timer_copies_agree.
Qed.

(** X2.  [start_timer] followed by [check_timer]: when the clock has
    not gone back between the two readings (at most [max_safe_seconds]
    later), the answer is true exactly when the time elapsed since the
    start reaches [wait_time], in both copies. *)
Theorem start_then_check :
  forall (t0 t1 ts : timespec) (cal : calendar) (wait_time : Z),
    normalised t0 -> normalised t1 ->
    ~ later t0 t1 ->
    tv_sec t1 - tv_sec t0 <= max_safe_seconds ->
    (started <- Lib1.start_timer (ClockOk t0) cal ts ;;
     Lib1.check_timer (ClockOk t1) (fst started) wait_time)
    = Ok (wait_time <=? delta_ns t1 t0)
    /\ (started <- Lib2.start_timer (ClockOk t0) cal ts ;;
        Lib2.check_timer (ClockOk t1) (fst started) wait_time)
       = Ok (wait_time <=? delta_ns t1 t0).
Proof.
  intros t0 t1 ts cal wait_time H0 H1 Hnl Hd.
  cbn [Lib1.start_timer Lib2.start_timer bind fst].
  rewrite check_timer_copies_agree.
  assert (Hpos : 0 <= delta_ns t1 t0 /\ 0 <= tv_sec t1 - tv_sec t0).
  { unfold later, normalised, delta_ns, NANOS_PER_SEC in *. split; nia. }
  split; apply check_timer_elapsed_iff; try assumption; try tauto;
    rewrite Z.abs_eq; tauto.
Qed.

Lemma start_then_check_witness :
  let t0 := mk_timespec 1700000000 900000000 in
  let t1 := mk_timespec 1700000001 0 in
  (started <- Lib1.start_timer (ClockOk t0) TimeUnavailable t1 ;;
   Lib1.check_timer (ClockOk t1) (fst started) 16666666)
  = Ok (16666666 <=? delta_ns t1 t0)
  /\ (started <- Lib2.start_timer (ClockOk t0) TimeUnavailable t1 ;;
      Lib2.check_timer (ClockOk t1) (fst started) 16666666)
     = Ok (16666666 <=? delta_ns t1 t0).
Proof.
  cbv zeta.
  apply (start_then_check (mk_timespec 1700000000 900000000)
           (mk_timespec 1700000001 0) (mk_timespec 1700000001 0)
           TimeUnavailable 16666666).
  - unfold normalised, NANOS_PER_SEC; simpl; lia.
  - unfold normalised, NANOS_PER_SEC; simpl; lia.
  - unfold later; simpl; lia.
  - unfold max_safe_seconds; simpl; lia.
Defined.

(** X3.  A query at the very instant the timer was started: no time has
    elapsed, no step can overflow, and both copies answer true for the
    threshold 0 and false for every positive one, whatever the instant. *)
Theorem query_at_start_instant :
  forall (t : timespec) (wait_time : Z),
    Lib1.check_timer (ClockOk t) t wait_time = Ok (wait_time <=? 0)
    /\ Lib2.check_timer (ClockOk t) t wait_time = Ok (wait_time <=? 0).
Proof.
  intros t wait_time. rewrite check_timer_copies_agree.
  assert (He : elapsed_nanos t t = Ok 0).
  { unfold elapsed_nanos, Int.sub_long, Int.mul_long, Int.add_long.
    rewrite !Z.sub_diag. reflexivity. }
  rewrite (check_timer_unfold _ _ _ _ He). split; reflexivity.
Qed.

(** X4.  The other side of the range: when the seconds of the two
    instants are 9223372037 or more apart, the multiplication by
    [NANOS_PER_SEC] (or already the subtraction) leaves [long], and
    neither copy of [check_timer] has a defined answer. *)
Theorem delta_overflows_beyond_range :
  forall (current start : timespec) (wait_time : Z),
    9223372037 <= Z.abs (tv_sec current - tv_sec start) ->
    Lib1.check_timer (ClockOk current) start wait_time = Fault SignedOverflow
    /\ Lib2.check_timer (ClockOk current) start wait_time
       = Fault SignedOverflow.
Proof.
  intros current start wait_time Hd. rewrite check_timer_copies_agree.
  assert (He : elapsed_nanos current start = Fault SignedOverflow).
  { unfold elapsed_nanos, Int.sub_long, Int.mul_long, Int.add_long.
    unfold Int.long_of at 1.
    destruct (Int.in_long (tv_sec current - tv_sec start)); [|reflexivity].
    cbn [bind]. unfold Int.long_of at 1.
    destruct (Int.in_long (tv_nsec current - tv_nsec start)); [|reflexivity].
    cbn [bind]. unfold Int.long_of at 1.
    destruct (Int.in_long ((tv_sec current - tv_sec start) * NANOS_PER_SEC))
      eqn:E; [|reflexivity].
    apply in_long_true in E.
    unfold Int.LONG_MIN, Int.LONG_MAX, NANOS_PER_SEC in E. lia. }
  unfold Lib2.check_timer. rewrite He. split; reflexivity.
Qed.

Lemma delta_overflows_beyond_range_witness :
  Lib1.check_timer (ClockOk (mk_timespec 9223372037 0)) (mk_timespec 0 0) 1
  = Fault SignedOverflow
  /\ Lib2.check_timer (ClockOk (mk_timespec 9223372037 0)) (mk_timespec 0 0) 1
     = Fault SignedOverflow.
Proof.
  apply (delta_overflows_beyond_range
           (mk_timespec 9223372037 0) (mk_timespec 0 0) 1).
  simpl. lia.
Defined.

End TimerMore.

(** * Further properties of [scanc_nowait] *)

Section TerminalMore.

(** X5.  What a call reports: the character returned is the byte read,
    or 0 when the read stored nothing, whatever the terminal calls did; and
    [stderr] receives one diagnostic for each call that failed, in the
    order of the calls (the one for [tcgetattr] under the name
    [tcsetattr()]), and nothing else. *)
Theorem scanc_nowait_reports :
  forall (e : syscalls) (w : world),
    fst (scanc_nowait e w)
    = match read_res e with ReadByte c => c | _ => NUL end
    /\ w_stderr (snd (scanc_nowait e w))
       = w_stderr w
         ++ (if tcgetattr_ok e then [] else ["tcsetattr()"%string])
         ++ (if tcsetattr_now_ok e then [] else ["tcsetattr ICANON"%string])
         ++ match read_res e with
            | ReadError => ["read()"%string]
            | _ => []
            end
         ++ (if tcsetattr_drain_ok e then []
             else ["tcsetattr ~ICANON"%string]).
Proof.
  intros e w. unfold scanc_nowait, perror.
  destruct (tcgetattr_ok e), (tcsetattr_now_ok e), (read_res e),
    (tcsetattr_drain_ok e);
    cbn [fst snd w_stderr app]; rewrite ?app_nil_r, <- ?app_assoc;
    split; reflexivity.
Qed.






(** X7.  On a terminal in canonical mode with echo, VMIN = 1 and
    VTIME = 0 (the cooked mode of Linux), a call whose [tcgetattr] and last
    [tcsetattr] succeed leaves the settings exactly as they were. *)
Theorem scanc_nowait_keeps_cooked_settings :
  forall (e : syscalls) (w : world),
    tcgetattr_ok e = true -> tcsetattr_drain_ok e = true ->
    0 <= c_lflag (w_tty w) < 2 ^ 32 ->
    Z.testbit (c_lflag (w_tty w)) 1 = true ->
    Z.testbit (c_lflag (w_tty w)) 3 = true ->
    length (c_cc (w_tty w)) = NCCS ->
    nth VMIN (c_cc (w_tty w)) 0 = 1 ->
    nth VTIME (c_cc (w_tty w)) 0 = 0 ->
    w_tty (snd (scanc_nowait e w)) = w_tty w.
Proof.
  intros. now apply scanc_nowait_restores_cooked.
Qed.

Lemma scanc_nowait_keeps_cooked_settings_witness :
  w_tty (snd (scanc_nowait (key "a") world0)) = w_tty world0.
Proof.
  apply (scanc_nowait_keeps_cooked_settings (key "a") world0);
    try reflexivity.
  simpl. lia.
Defined.

(** In the model of the terminal, the settings in force after a call
    whose last [tcsetattr] succeeds are those handed to that call. *)
Lemma scanc_nowait_installs_request (e : syscalls) (w : world) :
  tcsetattr_drain_ok e = true ->
  w_tty (snd (scanc_nowait e w)) = snd (scanc_nowait_requests e w).
Proof.
  intros Hset. unfold scanc_nowait, scanc_nowait_requests. rewrite Hset.
  destruct (tcgetattr_ok e), (tcsetattr_now_ok e), (read_res e);
    reflexivity.
Qed.

(** X8.  The call does not stop when [tcgetattr] fails: it logs the
    failure (under the name [tcsetattr()]), still returns what the read
    delivers, and hands both calls of [tcsetattr] settings built from the
    zeroed [struct termios]: every flag, character and speed is 0 but
    VMIN = 1 and, in the second call, ICANON and ECHO.  What the terminal
    is asked to take does not depend on the settings it has. *)
Theorem scanc_nowait_requests_after_failed_tcgetattr :
  forall (e : syscalls) (w : world),
    tcgetattr_ok e = false ->
    scanc_nowait_requests e w
    = (mk_termios 0 0 0 0 0
         (firstn VMIN (repeat 0 NCCS) ++ 1 :: skipn (S VMIN) (repeat 0 NCCS))
         0 0,
       mk_termios 0 0 0 (Z.lor ICANON ECHO) 0
         (firstn VMIN (repeat 0 NCCS) ++ 1 :: skipn (S VMIN) (repeat 0 NCCS))
         0 0)
    /\ fst (scanc_nowait e w) = delivered e
    /\ In "tcsetattr()"%string (w_stderr (snd (scanc_nowait e w))).
Proof.
  intros e w Hget. split; [|split].
  - unfold scanc_nowait_requests. rewrite Hget. reflexivity.
  - apply scanc_nowait_delivers.
  - unfold scanc_nowait. rewrite Hget.
    destruct (tcsetattr_now_ok e), (read_res e), (tcsetattr_drain_ok e);
      cbn [snd w_stderr perror];
      repeat (apply in_or_app; (right; now left) || left);
      apply in_or_app; right; now left.
Qed.

Lemma scanc_nowait_requests_after_failed_tcgetattr_witness :
  scanc_nowait_requests (mk_syscalls false true (ReadByte "a") true) world0
  = (mk_termios 0 0 0 0 0
       (firstn VMIN (repeat 0 NCCS) ++ 1 :: skipn (S VMIN) (repeat 0 NCCS))
       0 0,
     mk_termios 0 0 0 (Z.lor ICANON ECHO) 0
       (firstn VMIN (repeat 0 NCCS) ++ 1 :: skipn (S VMIN) (repeat 0 NCCS))
       0 0)
  /\ fst (scanc_nowait (mk_syscalls false true (ReadByte "a") true) world0)
     = delivered (mk_syscalls false true (ReadByte "a") true)
  /\ In "tcsetattr()"%string
       (w_stderr
          (snd (scanc_nowait (mk_syscalls false true (ReadByte "a") true)
                  world0))).
Proof.
  apply (scanc_nowait_requests_after_failed_tcgetattr
           (mk_syscalls false true (ReadByte "a") true) world0).
  reflexivity.
Defined.

End TerminalMore.

(** * Further properties of the string helpers *)

Section StringsMore.

Lemma store_ok_or_out (b : buffer) (i : Z) (c : ascii) :
  (exists b', store b i c = Ok b' /\ size b' = size b)
  \/ store b i c = Fault OutOfBounds.
Proof.
  unfold store.
  destruct (Z.leb_spec 0 i); [|now right].
  destruct (Z.ltb_spec i (size b)); [|now right].
  left. eexists. split; [reflexivity|].
  unfold size in *. rewrite length_app.
  change (length (Some c :: skipn (S (Z.to_nat i)) b))
    with (S (length (skipn (S (Z.to_nat i)) b))).
  rewrite length_firstn, length_skipn. lia.
Qed.

Lemma store_out (b : buffer) (i : Z) (c : ascii) :
  size b <= i -> store b i c = Fault OutOfBounds.
Proof.
  intros Hi. unfold store.
  destruct (Z.ltb_spec i (size b)); [lia|]. now rewrite andb_false_r.
Qed.

(** A store behind the first cell keeps the first cell. *)
Lemma store_behind_head (h : option ascii) (r : buffer) (i : Z) (c : ascii) :
  1 <= i < size (h :: r) ->
  exists r', store (h :: r) i c = Ok (h :: r') /\ length r' = length r.
Proof.
  intros Hi. unfold store.
  destruct (Z.leb_spec 0 i); [|lia].
  destruct (Z.ltb_spec i (size (h :: r))); [|lia].
  cbv [andb].
  destruct (Z.to_nat i) as [|k] eqn:Ek; [lia|].
  change (firstn (S k) (h :: r)) with (h :: firstn k r).
  change (skipn (S (S k)) (h :: r)) with (skipn (S k) r).
  rewrite <- app_comm_cons.
  eexists. split; [reflexivity|].
  unfold size in *. change (length (h :: r)) with (S (length r)) in *.
  rewrite length_app.
  change (length (Some c :: skipn (S k) r))
    with (S (length (skipn (S k) r))).
  rewrite length_firstn, length_skipn. lia.
Qed.

(** Reading a character of a string. *)
Lemma load_string (sp : buffer) (s : list ascii) (c : Z) :
  cstring sp = Ok s ->
  0 <= c < Z.of_nat (length s) ->
  load sp c = Ok (nth (Z.to_nat c) s NUL).
Proof.
  intros Hs Hc. destruct (cstring_ok _ _ Hs) as [_ [rest ->]].
  unfold load. rewrite size_app, size_map_Some, length_app. simpl length.
  destruct (Z.leb_spec 0 c); [|lia].
  destruct (Z.ltb_spec c (Z.of_nat (length s + 1) + size rest));
    [|pose proof (size_nonneg rest); lia].
  cbv [andb].
  rewrite app_nth1 by (rewrite length_map, length_app; simpl; lia).
  rewrite (nth_indep _ None (Some NUL))
    by (rewrite length_map, length_app; simpl; lia).
  rewrite map_nth, app_nth1 by lia. reflexivity.
Qed.

Lemma indices_range (n c : Z) : In c (indices n) -> 0 <= c < n.
Proof.
  unfold indices. intros H. apply in_map_iff in H.
  destruct H as (k & <- & Hk). apply in_seq in Hk. lia.
Qed.

Lemma indices_last (n : Z) : 1 <= n -> In (n - 1) (indices n).
Proof.
  intros Hn. unfold indices. apply in_map_iff.
  exists (Z.to_nat (n - 1)). split; [lia|]. apply in_seq. lia.
Qed.

(** The loop of [sdelelem] reads the block only through the characters
    of its string. *)
Lemma sdelelem_loop_ext (sp sp' : buffer) (elem : Z) (cs : list Z) :
  (forall c, In c cs -> load sp c = load sp' c) ->
  forall to_elem from_elem,
    Lib2.sdelelem_loop cs sp elem to_elem from_elem
    = Lib2.sdelelem_loop cs sp' elem to_elem from_elem.
Proof.
  induction cs as [|c cs IH]; intros Hld to_elem from_elem; [reflexivity|].
  cbn [Lib2.sdelelem_loop].
  rewrite (Hld c) by now left.
  destruct (if c <? elem then x <- load sp' c ;; store to_elem c x
            else Ok to_elem) as [t| | | |]; try reflexivity.
  cbn [bind].
  destruct (if c >? elem then x <- load sp' c ;; store from_elem c x
            else Ok from_elem) as [f| | | |]; try reflexivity.
  cbn [bind]. apply IH. intros c' Hc'. apply Hld. now right.
Qed.

Lemma sdelelem_depends_on_string (sp : buffer) (s : list ascii) (elem : Z) :
  cstring sp = Ok s ->
  Lib2.sdelelem sp elem = Lib2.sdelelem (holding s) elem.
Proof.
  intros Hs. destruct (cstring_ok _ _ Hs) as [Hnul _].
  pose proof (cstring_holding_exact s Hnul) as Hh.
  unfold Lib2.sdelelem, strlen. rewrite Hs, Hh. cbn [bind].
  rewrite (sdelelem_loop_ext sp (holding s)); [reflexivity|].
  intros c Hc. apply indices_range in Hc.
  rewrite (load_string sp s c Hs), (load_string (holding s) s c Hh) by lia.
  reflexivity.
Qed.

(** The loop stops with an out-of-bounds store or keeps the size of
    [from_elem]. *)
Lemma sdelelem_loop_outcome (s : list ascii) (elem : Z) (cs : list Z) :
  ~ In NUL s ->
  (forall c, In c cs -> 0 <= c < Z.of_nat (length s)) ->
  forall to_elem from_elem,
    (exists t f, Lib2.sdelelem_loop cs (holding s) elem to_elem from_elem
                 = Ok (t, f) /\ size f = size from_elem)
    \/ Lib2.sdelelem_loop cs (holding s) elem to_elem from_elem
       = Fault OutOfBounds.
Proof.
  intros Hnul.
  induction cs as [|c cs IH]; intros Hcs to_elem from_elem.
  - left. now exists to_elem, from_elem.
  - cbn [Lib2.sdelelem_loop].
    rewrite (load_string _ s c (cstring_holding_exact s Hnul))
      by (apply Hcs; now left).
    cbn [bind].
    assert (Hto : (exists t, (if c <? elem
                              then store to_elem c (nth (Z.to_nat c) s NUL)
                              else Ok to_elem) = Ok t)
                  \/ (if c <? elem
                      then store to_elem c (nth (Z.to_nat c) s NUL)
                      else Ok to_elem) = Fault OutOfBounds).
    { destruct (c <? elem); [|left; now eexists].
      destruct (store_ok_or_out to_elem c (nth (Z.to_nat c) s NUL))
        as [(b' & -> & _)| -> ]; [left; now eexists|now right]. }
    destruct Hto as [[t ->]| ->]; [|now right]. cbn [bind].
    assert (Hfrom : (exists f, (if c >? elem
                                then store from_elem c (nth (Z.to_nat c) s NUL)
                                else Ok from_elem) = Ok f
                               /\ size f = size from_elem)
                    \/ (if c >? elem
                        then store from_elem c (nth (Z.to_nat c) s NUL)
                        else Ok from_elem) = Fault OutOfBounds).
    { destruct (c >? elem); [|left; now eexists].
      destruct (store_ok_or_out from_elem c (nth (Z.to_nat c) s NUL))
        as [(b' & -> & Hb')| -> ]; [left; now eexists|now right]. }
    destruct Hfrom as [(f & -> & Hf)| ->]; [|now right]. cbn [bind].
    destruct (IH (fun c' Hc' => Hcs c' (or_intror Hc')) t f)
      as [(t' & f' & Hloop & Hsize)|Hloop].
    + left. exists t', f'. split; [exact Hloop|lia].
    + now right.
Qed.

(** A counter value behind [elem] and outside [from_elem] makes the
    loop store out of bounds. *)
Lemma sdelelem_loop_out_of_bounds (s : list ascii) (elem : Z) (cs : list Z) :
  ~ In NUL s ->
  (forall c, In c cs -> 0 <= c < Z.of_nat (length s)) ->
  forall to_elem from_elem,
    (exists c, In c cs /\ elem < c /\ size from_elem <= c) ->
    Lib2.sdelelem_loop cs (holding s) elem to_elem from_elem
    = Fault OutOfBounds.
Proof.
  intros Hnul.
  induction cs as [|c cs IH]; intros Hcs to_elem from_elem (c1 & Hin & H1 & H2).
  - destruct Hin.
  - cbn [Lib2.sdelelem_loop].
    rewrite (load_string _ s c (cstring_holding_exact s Hnul))
      by (apply Hcs; now left).
    cbn [bind].
    assert (Hto : (exists t, (if c <? elem
                              then store to_elem c (nth (Z.to_nat c) s NUL)
                              else Ok to_elem) = Ok t)
                  \/ (if c <? elem
                      then store to_elem c (nth (Z.to_nat c) s NUL)
                      else Ok to_elem) = Fault OutOfBounds).
    { destruct (c <? elem); [|left; now eexists].
      destruct (store_ok_or_out to_elem c (nth (Z.to_nat c) s NUL))
        as [(b' & -> & _)| -> ]; [left; now eexists|now right]. }
    destruct Hto as [[t ->]| ->]; [|reflexivity]. cbn [bind].
    destruct Hin as [<- | Hin].
    + destruct (Z.gtb_spec c elem); [|lia].
      rewrite store_out by assumption. reflexivity.
    + destruct (c >? elem).
      * destruct (store_ok_or_out from_elem c (nth (Z.to_nat c) s NUL))
          as [(f & -> & Hf)| -> ]; [|reflexivity].
        cbn [bind]. apply IH.
        -- intros c' Hc'. apply Hcs. now right.
        -- exists c1. repeat split; [assumption|assumption|lia].
      * cbn [bind]. apply IH.
        -- intros c' Hc'. apply Hcs. now right.
        -- exists c1. repeat split; assumption.
Qed.

(** With [elem] = 0 the loop never stores in the first cell of
    [from_elem]. *)
Lemma sdelelem_loop_first (s : list ascii) (cs : list Z) :
  ~ In NUL s ->
  (forall c, In c cs -> 0 <= c < Z.of_nat (length s)) ->
  forall (to_elem r : buffer),
    Z.of_nat (length r) = Z.of_nat (length s) - 1 ->
    exists r',
      Lib2.sdelelem_loop cs (holding s) 0 to_elem (None :: r)
      = Ok (to_elem, None :: r')
      /\ length r' = length r.
Proof.
  intros Hnul.
  induction cs as [|c cs IH]; intros Hcs to_elem r Hr.
  - now exists r.
  - cbn [Lib2.sdelelem_loop].
    pose proof (Hcs c (or_introl eq_refl)) as Hc.
    destruct (Z.ltb_spec c 0); [lia|]. cbn [bind].
    destruct (Z.gtb_spec c 0).
    + rewrite (load_string _ s c (cstring_holding_exact s Hnul)) by lia.
      cbn [bind].
      destruct (store_behind_head None r c (nth (Z.to_nat c) s NUL))
        as (r1 & -> & Hr1).
      { unfold size. simpl length. lia. }
      cbn [bind].
      destruct (IH (fun c' Hc' => Hcs c' (or_intror Hc')) to_elem r1)
        as (r' & Hloop & Hr'); [lia|].
      exists r'. split; [exact Hloop|lia].
    + cbn [bind].
      destruct (IH (fun c' Hc' => Hcs c' (or_intror Hc')) to_elem r Hr)
        as (r' & Hloop & Hr').
      exists r'. split; [exact Hloop|lia].
Qed.

End StringsMore.

Section StringsResults.

Lemma size_malloc (n : Z) :
  0 <= n <= Int.PTRDIFF_MAX -> size (malloc n) = n.
Proof.
  intros Hn. rewrite malloc_small by assumption.
  unfold size. rewrite repeat_length. lia.
Qed.

Lemma size_zero (b : buffer) : size b = 0 -> b = [].
Proof. destruct b; [reflexivity|unfold size; simpl; lia]. Qed.

(** The three outcomes of [sdelelem] on a string that fits [int]. *)
Lemma sdelelem_outcome (sp : buffer) (s : list ascii) (elem : Z) :
  cstring sp = Ok s ->
  Z.of_nat (length s) <= Int.INT_MAX ->
  0 <= elem < 2 ^ 32 ->
  Lib2.sdelelem sp elem
  = if elem =? Z.of_nat (length s) - 1 then Ok (holding (removelast s))
    else if (elem =? 0) && (2 <=? Z.of_nat (length s))
         then Fault Indeterminate
         else Fault OutOfBounds.
Proof.
  intros Hs Hlen Helem.
  rewrite (sdelelem_depends_on_string sp s elem Hs).
  destruct (cstring_ok _ _ Hs) as [Hnul _].
  unfold Int.INT_MAX in Hlen.
  destruct (Z.eqb_spec elem (Z.of_nat (length s) - 1)) as [Elast|Elast].
  - (* the last character *)
    destruct (exists_last (l := s)) as (t & c0 & ->);
      [intros ->; simpl in Elast; lia|].
    rewrite removelast_last.
    replace elem with (Z.of_nat (length t))
      by (rewrite length_app in Elast; simpl length in Elast; lia).
    apply sdelelem_last; [assumption|unfold Int.INT_MAX; lia].
  - destruct (Z.eqb_spec elem 0) as [E0|E0];
      [destruct (Z.leb_spec 2 (Z.of_nat (length s))) as [E2|E2]|];
      cbn [andb].
    + (* index 0 of a longer string *)
      subst elem. unfold Lib2.sdelelem.
      rewrite strlen_holding by assumption. cbn [bind].
      rewrite Z.min_l by lia. rewrite Z.sub_0_r.
      unfold Int.to_uint64 at 2. rewrite Z.mod_small by lia.
      rewrite (malloc_small (Z.of_nat (length s)))
        by (unfold Int.PTRDIFF_MAX; lia).
      rewrite Nat2Z.id.
      destruct (length s) as [|k] eqn:Ek; [simpl in E2; lia|].
      cbn [repeat].
      destruct (sdelelem_loop_first s (indices (Z.of_nat (S k))) Hnul
                  (fun c Hc => ltac:(rewrite Ek; now apply indices_range))
                  (malloc (Int.to_uint64 (Int.to_unsigned (0 + 1))))
                  (repeat None k))
        as (r' & Hloop & Hr');
        [rewrite repeat_length, Ek; lia|].
      rewrite Hloop. cbn [bind].
      destruct (Z.leb_spec (2 ^ 32) (Z.of_nat (S k))); [lia|].
      change (store (malloc (Int.to_uint64 (Int.to_unsigned (0 + 1)))) 0 NUL)
        with (Ok (A := buffer) [Some NUL]).
      cbn [bind].
      destruct (store_behind_head None r'
                  (Int.to_uint64 (Z.of_nat (S k) - 1)) NUL)
        as (r2 & -> & _).
      { unfold Int.to_uint64, size. rewrite Z.mod_small by lia.
        simpl length. rewrite repeat_length in Hr'. lia. }
      cbn [bind]. unfold Lib2.sfmt, format_alloc. rewrite format_s_s.
      reflexivity.
    + (* index 0 of the empty string *)
      subst elem. assert (Hl : length s = 0%nat) by lia.
      destruct s; [reflexivity|discriminate Hl].
    + destruct (Z.lt_ge_cases elem (Z.of_nat (length s))) as [Hin|Hout].
      * (* inside the string, neither first nor last *)
        unfold Lib2.sdelelem.
        rewrite strlen_holding by assumption. cbn [bind].
        rewrite Z.min_l by lia.
        rewrite sdelelem_loop_out_of_bounds; [reflexivity|assumption| |].
        -- intros c Hc. now apply indices_range.
        -- exists (Z.of_nat (length s) - 1).
           split; [apply indices_last; lia|]. split; [lia|].
           unfold Int.to_uint64. rewrite Z.mod_small by lia.
           rewrite size_malloc by (unfold Int.PTRDIFF_MAX; lia). lia.
      * (* behind the string *)
        unfold Lib2.sdelelem.
        rewrite strlen_holding by assumption. cbn [bind].
        rewrite Z.min_l by lia.
        assert (Hfrom : malloc (Int.to_uint64 (Z.of_nat (length s) - elem))
                        = []).
        { destruct (Z.eq_dec elem (Z.of_nat (length s))) as [->|Hne].
          - rewrite Z.sub_diag. reflexivity.
          - apply malloc_refused. unfold Int.to_uint64, Int.PTRDIFF_MAX.
            replace ((Z.of_nat (length s) - elem) mod 2 ^ 64)
              with (2 ^ 64 + (Z.of_nat (length s) - elem));
              [lia|].
            apply Z.mod_unique with (q := -1); lia. }
        rewrite Hfrom.
        destruct (sdelelem_loop_outcome s elem
                    (indices (Z.of_nat (length s))) Hnul
                    (fun c Hc => indices_range _ _ Hc)
                    (malloc (Int.to_uint64 (Int.to_unsigned (elem + 1)))) [])
          as [(t & f & -> & Hf)| ->]; [|reflexivity].
        cbn [bind]. apply size_zero in Hf. subst f.
        destruct (Z.leb_spec (2 ^ 32) (Z.of_nat (length s))); [lia|].
        destruct (store_ok_or_out t elem NUL) as [(t' & -> & _)| ->];
          [|reflexivity].
        cbn [bind]. rewrite store_empty. reflexivity.
Qed.

(** X9.  [sdelelem] deletes a character only when it is the last one.
    For a string that fits [int] and any index [elem]: at the index of the
    last character the result is the string without it, in a block of
    exactly its size; at index 0 of a longer string the first cell of
    [from_elem] is never written and is read by [sfmt]; at every other
    index, in or out of the string, a store falls outside [from_elem] or
    [to_elem]. *)
Theorem sdelelem_only_deletes_last :
  forall (sp : buffer) (s : list ascii) (elem : Z),
    cstring sp = Ok s ->
    Z.of_nat (length s) <= Int.INT_MAX ->
    0 <= elem < 2 ^ 32 ->
    Lib2.sdelelem sp elem
    = if elem =? Z.of_nat (length s) - 1 then Ok (holding (removelast s))
      else if (elem =? 0) && (2 <=? Z.of_nat (length s))
           then Fault Indeterminate
           else Fault OutOfBounds.
Proof.
  intros sp s elem. apply sdelelem_outcome.
Qed.

Lemma sdelelem_only_deletes_last_witness :
  Lib2.sdelelem (holding (str "abc")) 1
  = if 1 =? Z.of_nat (length (str "abc")) - 1
    then Ok (holding (removelast (str "abc")))
    else if (1 =? 0) && (2 <=? Z.of_nat (length (str "abc")))
         then Fault Indeterminate
         else Fault OutOfBounds.
Proof.
  apply (sdelelem_only_deletes_last (holding (str "abc")) (str "abc") 1).
  - reflexivity.
  - unfold Int.INT_MAX. simpl. lia.
  - lia.
Defined.

End StringsResults.

(** * [sdelchar] of [src/main.c] *)

Section Sdelchar.

Lemma unsigned_dec_inc (c : Z) :
  0 <= c < 2 ^ 32 ->
  Int.to_unsigned (Int.to_unsigned (c - 1) + 1) = c.
Proof.
  intros Hc. unfold Int.to_unsigned.
  destruct (Z.eq_dec c 0) as [->|Hne]; [reflexivity|].
  rewrite (Z.mod_small (c - 1)) by lia.
  rewrite Z.mod_small by lia. lia.
Qed.

(** The loop walks over characters other than [remove] without
    changing the string. *)
Lemma sdelchar_loop_scan (sp : buffer) (s : list ascii) (remove : ascii) :
  cstring sp = Ok s ->
  Z.of_nat (length s) < 2 ^ 32 ->
  forall (t2 t1 u : list ascii) (fuel : nat),
    s = t1 ++ t2 ++ u ->
    ~ In remove t2 ->
    Lib2.sdelchar_loop (length t2 + fuel) sp remove (Z.of_nat (length t1))
    = Lib2.sdelchar_loop fuel sp remove (Z.of_nat (length (t1 ++ t2))).
Proof.
  intros Hs Hlen.
  induction t2 as [|x t2 IH]; intros t1 u fuel Hsplit Hno.
  - now rewrite app_nil_r.
  - simpl length. cbn [Nat.add Lib2.sdelchar_loop].
    unfold strlen. rewrite Hs. cbn [bind].
    assert (Hl : Z.of_nat (length t1) < Z.of_nat (length s))
      by (subst s; rewrite !length_app; simpl length; lia).
    destruct (Z.ltb_spec (Z.of_nat (length t1)) (Z.of_nat (length s)));
      [|lia].
    rewrite (load_string sp s _ Hs) by lia. cbn [bind].
    rewrite Nat2Z.id.
    assert (Hx : nth (length t1) s NUL = x)
      by (subst s; rewrite app_nth2, Nat.sub_diag by lia; reflexivity).
    rewrite Hx.
    destruct (Ascii.eqb_spec x remove) as [->|Hne];
      [exfalso; apply Hno; now left|].
    unfold Int.to_unsigned. rewrite Z.mod_small by lia.
    replace (Z.of_nat (length t1) + 1) with (Z.of_nat (length (t1 ++ [x])))
      by (rewrite length_app; simpl length; lia).
    rewrite (IH (t1 ++ [x]) u fuel).
    + now rewrite <- app_assoc.
    + subst s. now rewrite <- app_assoc.
    + intros H0. apply Hno. now right.
Qed.

(** The loop at the first occurrence of [remove]. *)
Lemma sdelchar_loop_found (sp : buffer) (s t u : list ascii)
    (remove : ascii) (fuel : nat) :
  cstring sp = Ok s ->
  Z.of_nat (length s) < 2 ^ 32 ->
  s = t ++ remove :: u ->
  Lib2.sdelchar_loop (S fuel) sp remove (Z.of_nat (length t))
  = sp' <- Lib2.sdelelem sp (Z.of_nat (length t)) ;;
    Lib2.sdelchar_loop fuel sp' remove (Z.of_nat (length t)).
Proof.
  intros Hs Hlen Hsplit. cbn [Lib2.sdelchar_loop].
  unfold strlen. rewrite Hs. cbn [bind].
  assert (Hl : Z.of_nat (length t) < Z.of_nat (length s))
    by (subst s; rewrite !length_app; simpl length; lia).
  destruct (Z.ltb_spec (Z.of_nat (length t)) (Z.of_nat (length s))); [|lia].
  rewrite (load_string sp s _ Hs) by lia. cbn [bind].
  rewrite Nat2Z.id.
  assert (Hx : nth (length t) s NUL = remove)
    by (subst s; rewrite app_nth2, Nat.sub_diag by lia; reflexivity).
  rewrite Hx, Ascii.eqb_refl.
  rewrite unsigned_dec_inc by lia. reflexivity.
Qed.

(** The loop at the end of the string. *)
Lemma sdelchar_loop_end (sp : buffer) (s : list ascii) (remove : ascii)
    (fuel : nat) :
  cstring sp = Ok s ->
  Lib2.sdelchar_loop (S fuel) sp remove (Z.of_nat (length s)) = Ok sp.
Proof.
  intros Hs. cbn [Lib2.sdelchar_loop]. unfold strlen. rewrite Hs.
  cbn [bind]. rewrite Z.ltb_irrefl. reflexivity.
Qed.

(** X10.  [sdelchar] on a string (that fits [int]) in which [remove]
    does not occur: the string and its block are returned as they are. *)
Theorem sdelchar_without_occurrence :
  forall (sp : buffer) (s : list ascii) (remove : ascii),
    cstring sp = Ok s ->
    Z.of_nat (length s) <= Int.INT_MAX ->
    ~ In remove s ->
    Lib2.sdelchar sp remove = Ok sp.
Proof.
  intros sp s remove Hs Hlen Hno. unfold Int.INT_MAX in Hlen.
  unfold Lib2.sdelchar, strlen. rewrite Hs. cbn [bind]. rewrite Nat2Z.id.
  replace (S (2 * length s)) with (length s + S (length s))%nat by lia.
  change 0 with (Z.of_nat (length (@nil ascii))) at 1.
  rewrite (sdelchar_loop_scan sp s remove Hs ltac:(lia) s [] []
             (S (length s))); [|now rewrite app_nil_r|assumption].
  apply sdelchar_loop_end. exact Hs.
Qed.

Lemma sdelchar_without_occurrence_witness :
  Lib2.sdelchar (holding (str "Mon Nov  2")) NEWLINE
  = Ok (holding (str "Mon Nov  2")).
Proof.
  apply (sdelchar_without_occurrence (holding (str "Mon Nov  2"))
           (str "Mon Nov  2") NEWLINE).
  - reflexivity.
  - unfold Int.INT_MAX. simpl. lia.
  - simpl. intuition discriminate.
Defined.

(** A single occurrence of [remove], at the end of the string, is found
    by the scan and deleted by [sdelelem]. *)
Lemma sdelchar_last_character (sp : buffer) (t : list ascii) (remove : ascii) :
  cstring sp = Ok (t ++ [remove]) ->
  Z.of_nat (length (t ++ [remove])) <= Int.INT_MAX ->
  ~ In remove t ->
  Lib2.sdelchar sp remove = Ok (holding t).
Proof.
  intros Hs Hlen Hno.
  destruct (cstring_ok _ _ Hs) as [Hnul _].
  assert (Hnt : ~ In NUL t) by (intros H; apply Hnul, in_or_app; now left).
  assert (Hlen' : Z.of_nat (length (t ++ [remove])) < 2 ^ 32)
    by (unfold Int.INT_MAX in Hlen; lia).
  unfold Lib2.sdelchar, strlen. rewrite Hs. cbn [bind]. rewrite Nat2Z.id.
  replace (S (2 * length (t ++ [remove])))
    with (length t + S (S (S (length t))))%nat
    by (rewrite length_app; simpl length; lia).
  change 0 with (Z.of_nat (length (@nil ascii))) at 1.
  rewrite (sdelchar_loop_scan sp _ remove Hs Hlen' t [] [remove]);
    [|reflexivity|assumption].
  cbn [app].
  rewrite (sdelchar_loop_found sp _ t [] remove _ Hs Hlen' eq_refl).
  rewrite (sdelelem_depends_on_string sp _ _ Hs).
  rewrite sdelelem_last by assumption. cbn [bind].
  apply sdelchar_loop_end. now apply cstring_holding_exact.
Qed.

(** X11.  [sdelchar] on a string whose only occurrence of [remove] is
    its last character (the newline of a [ctime] text, as [timestamp] uses
    it): the result is the string without that character, in a block of
    exactly its size. *)
Theorem sdelchar_trailing_occurrence :
  forall (sp : buffer) (t : list ascii) (remove : ascii),
    cstring sp = Ok (t ++ [remove]) ->
    Z.of_nat (length (t ++ [remove])) <= Int.INT_MAX ->
    ~ In remove t ->
    Lib2.sdelchar sp remove = Ok (holding t).
Proof.
  intros sp t remove Hs Hlen Hno. now apply sdelchar_last_character.
Qed.

Lemma sdelchar_trailing_occurrence_witness :
  Lib2.sdelchar (holding (str "Mon Nov  2" ++ [NEWLINE])) NEWLINE
  = Ok (holding (str "Mon Nov  2")).
Proof.
  apply (sdelchar_trailing_occurrence
           (holding (str "Mon Nov  2" ++ [NEWLINE])) (str "Mon Nov  2")
           NEWLINE).
  - reflexivity.
  - unfold Int.INT_MAX. simpl. lia.
  - simpl. intuition discriminate.
Defined.

(** X12.  [sdelchar] on a string in which [remove] occurs before the
    last character: the first occurrence is handed to [sdelelem], which
    cannot delete it, so the call has no defined result, although the
    function is documented to remove all cases of the character. *)
Theorem sdelchar_inner_occurrence :
  forall (sp : buffer) (t u : list ascii) (x remove : ascii),
    cstring sp = Ok (t ++ remove :: x :: u) ->
    Z.of_nat (length (t ++ remove :: x :: u)) <= Int.INT_MAX ->
    ~ In remove t ->
    Lib2.sdelchar sp remove
    = Fault (if is_empty t then Indeterminate else OutOfBounds).
Proof.
  intros sp t u x remove Hs Hlen Hno.
  assert (Hlen' : Z.of_nat (length (t ++ remove :: x :: u)) < 2 ^ 32)
    by (unfold Int.INT_MAX in Hlen; lia).
  unfold Lib2.sdelchar, strlen. rewrite Hs. cbn [bind]. rewrite Nat2Z.id.
  replace (S (2 * length (t ++ remove :: x :: u)))
    with (length t + S (S (S (length t + 2 * S (length u)))))%nat
    by (rewrite length_app; simpl length; lia).
  change 0 with (Z.of_nat (length (@nil ascii))) at 1.
  rewrite (sdelchar_loop_scan sp _ remove Hs Hlen' t [] (remove :: x :: u));
    [|reflexivity|assumption].
  cbn [app].
  rewrite (sdelchar_loop_found sp _ t (x :: u) remove _ Hs Hlen' eq_refl).
  rewrite (sdelelem_outcome sp _ _ Hs Hlen)
    by (rewrite length_app in Hlen'; simpl length in Hlen'; lia).
  rewrite length_app. simpl length.
  destruct (Z.eqb_spec (Z.of_nat (length t))
              (Z.of_nat (length t + S (S (length u))) - 1)); [lia|].
  destruct t as [|y t].
  - simpl length.
    destruct (Z.leb_spec 2 (Z.of_nat (0 + S (S (length u))))); [|lia].
    reflexivity.
  - simpl length.
    destruct (Z.eqb_spec (Z.of_nat (S (length t))) 0); [lia|].
    reflexivity.
Qed.

Lemma sdelchar_inner_occurrence_witness :
  Lib2.sdelchar (holding (str "a-b-")) "-"
  = Fault (if is_empty (str "a") then Indeterminate else OutOfBounds).
Proof.
  apply (sdelchar_inner_occurrence (holding (str "a-b-")) (str "a")
           (str "-") "b" "-").
  - reflexivity.
  - unfold Int.INT_MAX. simpl. lia.
  - simpl. intuition discriminate.
Defined.

End Sdelchar.

(** * [stringrmc] and [stringrmlast] of [src/mycutils.c] *)

Section Stringrmc.

Lemma int_of_small (n : Z) : 0 <= n <= Int.INT_MAX -> int_of n = n.
Proof.
  unfold int_of, Int.INT_MAX. intros Hn.
  rewrite Z.mod_small by lia. lia.
Qed.

(** Moving the rest of a string, terminator included, one cell down. *)
Lemma memmove_shift (A M Z0 : buffer) (x y : option ascii) :
  memmove (A ++ x :: M ++ y :: Z0) (size A) (size A + 1) (size M + 1)
  = Ok (A ++ M ++ y :: y :: Z0).
Proof.
  unfold memmove.
  pose proof (size_nonneg A) as HA. pose proof (size_nonneg M) as HM.
  assert (Hsize : size (A ++ x :: M ++ y :: Z0)
                  = size A + 1 + size M + 1 + size Z0).
  { unfold size. rewrite length_app. simpl length.
    rewrite length_app. simpl length. lia. }
  pose proof (size_nonneg Z0) as HZ.
  rewrite Hsize.
  destruct (Z.leb_spec 0 (size A)); [|lia].
  destruct (Z.leb_spec 0 (size A + 1)); [|lia].
  destruct (Z.leb_spec 0 (size M + 1)); [|lia].
  destruct (Z.leb_spec (size A + (size M + 1))
              (size A + 1 + size M + 1 + size Z0)); [|lia].
  destruct (Z.leb_spec (size A + 1 + (size M + 1))
              (size A + 1 + size M + 1 + size Z0)); [|lia].
  cbv [andb]. unfold size.
  replace (Z.to_nat (Z.of_nat (length A))) with (length A) by lia.
  replace (Z.to_nat (Z.of_nat (length A) + 1)) with (length A + 1)%nat by lia.
  replace (Z.to_nat (Z.of_nat (length M) + 1)) with (length M + 1)%nat by lia.
  replace (Z.to_nat (Z.of_nat (length A) + (Z.of_nat (length M) + 1)))
    with (length A + (length M + 1))%nat by lia.
  f_equal.
  rewrite firstn_app, firstn_all, Nat.sub_diag, firstn_O, app_nil_r.
  f_equal.
  assert (Hskip : forall n (tl : buffer),
             skipn (length A + n) (A ++ tl) = skipn n tl).
  { intros n tl. rewrite skipn_app.
    rewrite skipn_all2 by lia.
    replace (length A + n - length A)%nat with n by lia. reflexivity. }
  rewrite !Hskip.
  change (skipn 1 (x :: M ++ y :: Z0)) with (M ++ y :: Z0).
  replace (length M + 1)%nat with (S (length M)) by lia.
  change (skipn (S (length M)) (x :: M ++ y :: Z0))
    with (skipn (length M) (M ++ y :: Z0)).
  rewrite skipn_app, skipn_all, Nat.sub_diag. cbn [app skipn].
  replace (S (length M)) with (length M + 1)%nat by lia.
  rewrite firstn_app, firstn_all2 by lia.
  replace (length M + 1 - length M)%nat with 1%nat by lia.
  cbn [firstn]. rewrite <- app_assoc. reflexivity.
Qed.

Lemma rmc_block_cons (kept todo : list ascii) (x : ascii) (k : nat)
    (rest : buffer) :
  rmc_block kept (x :: todo) k rest
  = map Some kept
    ++ Some x :: map Some todo ++ Some NUL :: map Some (repeat NUL k) ++ rest.
Proof.
  unfold rmc_block.
  repeat (rewrite map_app || rewrite <- app_assoc || cbn [map app]).
  reflexivity.
Qed.

Lemma rmc_block_nil (kept : list ascii) (k : nat) (rest : buffer) :
  rmc_block kept [] k rest
  = map Some kept ++ Some NUL :: map Some (repeat NUL k) ++ rest.
Proof.
  unfold rmc_block.
  repeat (rewrite map_app || rewrite <- app_assoc || cbn [map app]).
  reflexivity.
Qed.

Lemma rmc_block_next (kept todo : list ascii) (x : ascii) (k : nat)
    (rest : buffer) :
  rmc_block (kept ++ [x]) todo k rest = rmc_block kept (x :: todo) k rest.
Proof. unfold rmc_block. rewrite <- app_assoc. reflexivity. Qed.

Lemma cstring_rmc_block (kept todo : list ascii) (k : nat) (rest : buffer) :
  ~ In NUL (kept ++ todo) ->
  cstring (rmc_block kept todo k rest) = Ok (kept ++ todo).
Proof.
  intros Hnul. unfold rmc_block.
  replace (kept ++ todo ++ NUL :: repeat NUL k)
    with (((kept ++ todo) ++ [NUL]) ++ repeat NUL k)
    by (rewrite <- !app_assoc; reflexivity).
  rewrite map_app, <- app_assoc. now apply cstring_holding.
Qed.

Lemma filter_length_le (remove : ascii) (l : list ascii) :
  (length (filter (other_than remove) l) <= length l)%nat.
Proof.
  induction l as [|x l IH]; simpl; [lia|].
  destruct (other_than remove x); simpl; lia.
Qed.

Lemma filter_absent (remove : ascii) (l : list ascii) :
  ~ In remove l -> filter (other_than remove) l = l.
Proof.
  induction l as [|x l IH]; intros Hno; [reflexivity|].
  simpl. unfold other_than at 1.
  destruct (Ascii.eqb_spec x remove) as [->|Hne].
  - exfalso. apply Hno. now left.
  - simpl. f_equal. apply IH. intros H. apply Hno. now right.
Qed.

Lemma filter_cons_removed (remove : ascii) (l : list ascii) :
  filter (other_than remove) (remove :: l) = filter (other_than remove) l.
Proof.
  cbn [filter]. unfold other_than at 1. now rewrite Ascii.eqb_refl.
Qed.

Lemma filter_cons_kept (remove x : ascii) (l : list ascii) :
  x <> remove ->
  filter (other_than remove) (x :: l) = x :: filter (other_than remove) l.
Proof.
  intros Hne. cbn [filter]. unfold other_than at 1.
  destruct (Ascii.eqb_spec x remove); [contradiction|reflexivity].
Qed.

(** The loop over the characters of the string: each one is kept, or
    removed by moving the rest one cell down. *)
Lemma stringrmc_loop_chars (remove : ascii) (rest : buffer) (len : Z) :
  len < 2 ^ 64 ->
  forall (todo kept : list ascii) (k : nat) (total : Z) (fuel : nat),
    ~ In NUL (kept ++ todo) ->
    len = Z.of_nat (length kept + length todo + k) ->
    Lib1.stringrmc_loop (length todo + fuel) (rmc_block kept todo k rest)
      remove len (Z.of_nat (length kept)) total
    = Lib1.stringrmc_loop fuel
        (rmc_block (kept ++ filter (other_than remove) todo) []
           (k + (length todo - length (filter (other_than remove) todo)))
           rest)
        remove len
        (Z.of_nat (length (kept ++ filter (other_than remove) todo)))
        (total
         - Z.of_nat (length todo - length (filter (other_than remove) todo))).
Proof.
  intros Hbound.
  induction todo as [|x todo IH]; intros kept k total fuel Hnul Hlen.
  - cbn [filter length Nat.add Nat.sub].
    rewrite !app_nil_r, Nat.add_0_r, Z.sub_0_r. reflexivity.
  - cbn [length Nat.add Lib1.stringrmc_loop].
    destruct (Z.ltb_spec (Z.of_nat (length kept)) len);
      [|simpl length in Hlen; lia].
    rewrite rmc_block_cons at 1. rewrite load_after_prefix. cbn [bind].
    pose proof (filter_length_le remove todo) as Hle.
    simpl length in Hlen.
    destruct (Ascii.eqb_spec x remove) as [->|Hne].
    + (* removed *)
      rewrite filter_cons_removed.
      unfold strlen. rewrite cstring_rmc_block by assumption. cbn [bind].
      rewrite length_app. simpl length.
      replace (Int.to_uint64
                 (Z.of_nat (length kept + S (length todo))
                  - Z.of_nat (length kept)))
        with (size (map Some todo) + 1)
        by (unfold Int.to_uint64, size; rewrite length_map;
            rewrite Z.mod_small; lia).
      replace (Z.of_nat (length kept)) with (size (map Some kept)) at 1 2
        by apply size_map_Some.
      rewrite rmc_block_cons, memmove_shift. cbn [bind].
      replace (Z.of_nat (length kept) - 1 + 1) with (Z.of_nat (length kept))
        by lia.
      assert (Hblock : map Some kept
                       ++ map Some todo
                       ++ Some NUL :: Some NUL :: map Some (repeat NUL k) ++ rest
                       = rmc_block kept todo (S k) rest).
      { unfold rmc_block.
        repeat (rewrite map_app || rewrite <- app_assoc
                || cbn [map app repeat]).
        reflexivity. }
      rewrite Hblock.
      rewrite (IH kept (S k) (total - 1) fuel).
      * replace (S k + (length todo
                        - length (filter (other_than remove) todo)))%nat
          with (k + (S (length todo)
                     - length (filter (other_than remove) todo)))%nat by lia.
        replace (total - 1
                 - Z.of_nat (length todo
                             - length (filter (other_than remove) todo)))
          with (total
                - Z.of_nat (S (length todo)
                            - length (filter (other_than remove) todo)))
          by lia.
        reflexivity.
      * intros H0. apply Hnul. apply in_app_or in H0.
        apply in_or_app. destruct H0; [now left|right; now right].
      * lia.
    + (* kept *)
      rewrite filter_cons_kept by assumption.
      replace (Z.of_nat (length kept) + 1)
        with (Z.of_nat (length (kept ++ [x])))
        by (rewrite length_app; simpl length; lia).
      rewrite <- rmc_block_next.
      rewrite (IH (kept ++ [x]) k total fuel).
      * rewrite <- !app_assoc. cbn [app length Nat.sub]. reflexivity.
      * now rewrite <- app_assoc.
      * rewrite length_app. simpl length. lia.
Qed.

Lemma load_nul_cell (kept : list ascii) (m : nat) (rest : buffer) (i : Z) :
  Z.of_nat (length kept) <= i < Z.of_nat (length kept + m) ->
  load (map Some (kept ++ repeat NUL m) ++ rest) i = Ok NUL.
Proof.
  intros Hi. unfold load. rewrite size_app, size_map_Some, length_app.
  rewrite repeat_length.
  pose proof (size_nonneg rest).
  destruct (Z.leb_spec 0 i); [|lia].
  destruct (Z.ltb_spec i (Z.of_nat (length kept + m) + size rest)); [|lia].
  cbv [andb].
  rewrite app_nth1 by (rewrite length_map, length_app, repeat_length; lia).
  rewrite (nth_indep _ None (Some NUL))
    by (rewrite length_map, length_app, repeat_length; lia).
  rewrite map_nth, app_nth2 by lia.
  rewrite nth_repeat. reflexivity.
Qed.

(** The loop over the cells between the shortened string and the
    original length: they hold NUL bytes. *)
Lemma stringrmc_loop_tail (remove : ascii) (rest : buffer) (len : Z)
    (kept : list ascii) (k : nat) (total : Z) :
  len = Z.of_nat (length kept + k) ->
  forall (m : nat) (i : Z) (fuel : nat),
    remove <> NUL \/ m = 0%nat ->
    i + Z.of_nat m = len ->
    Z.of_nat (length kept) <= i ->
    Lib1.stringrmc_loop (m + S fuel) (rmc_block kept [] k rest) remove len i
      total
    = Ok (rmc_block kept [] k rest, total).
Proof.
  intros Hlen.
  induction m as [|m IH]; intros i fuel Hrem Him Hi.
  - cbn [Nat.add Lib1.stringrmc_loop].
    destruct (Z.ltb_spec i len); [lia|reflexivity].
  - cbn [Nat.add Lib1.stringrmc_loop].
    destruct (Z.ltb_spec i len); [|lia].
    assert (Hcell : load (rmc_block kept [] k rest) i = Ok NUL).
    { unfold rmc_block. cbn [app].
      change (NUL :: repeat NUL k) with (repeat NUL (S k)).
      apply load_nul_cell. lia. }
    rewrite Hcell. cbn [bind].
    destruct Hrem as [Hrem|Hrem]; [|discriminate Hrem].
    destruct (Ascii.eqb_spec NUL remove) as [E|E]; [now subst remove|].
    apply IH; [now left|lia|lia].
Qed.

(** The whole of [stringrmc]: the loop over the characters, then the
    cells the removals left behind. *)
Lemma stringrmc_filters (str : buffer) (s : list ascii) (remove : ascii) :
  cstring str = Ok s ->
  Z.of_nat (length s) <= Int.INT_MAX ->
  exists str' : buffer,
    Lib1.stringrmc str remove = Ok str'
    /\ cstring str' = Ok (filter (other_than remove) s)
    /\ size str' = size str.
Proof.
  intros Hs Hlen.
  destruct (cstring_ok _ _ Hs) as [Hnul [rest Hstr]].
  pose proof (filter_length_le remove s) as Hle.
  set (kept := filter (other_than remove) s) in *.
  assert (Hnk : ~ In NUL kept).
  { intros H. apply Hnul. unfold kept in H. apply filter_In in H. tauto. }
  assert (Hrun : Lib1.stringrmc (rmc_block [] s 0 rest) remove
                 = Ok (map Some (kept ++ [NUL])
                       ++ map Some (repeat NUL (length s - length kept))
                       ++ rest)).
  { unfold Lib1.stringrmc, strlen.
    rewrite (cstring_rmc_block [] s 0 rest) by assumption.
    cbn [bind app]. rewrite int_of_small by lia. rewrite Nat2Z.id.
    replace (S (2 * length s))
      with (length s + ((length s - length kept) + S (length kept)))%nat
      by lia.
    change 0 with (Z.of_nat (length (@nil ascii))) at 1.
    rewrite (stringrmc_loop_chars remove rest (Z.of_nat (length s))
               ltac:(unfold Int.INT_MAX in Hlen; lia) s [] 0);
      [|assumption|simpl; lia].
    cbn [app Nat.add]. fold kept.
    rewrite (stringrmc_loop_tail remove rest (Z.of_nat (length s)) kept
               (length s - length kept));
      [|lia| |lia|lia].
    - cbn [bind]. rewrite rmc_block_nil.
      replace (Z.of_nat (length s) - Z.of_nat (length s - length kept))
        with (Z.of_nat (length kept)) by lia.
      rewrite store_after_prefix. reflexivity.
    - destruct (Ascii.eqb_spec remove NUL) as [->|Hne]; [|now left].
      right. unfold kept. rewrite filter_absent by assumption. lia. }
  assert (Hblock : str = rmc_block [] s 0 rest).
  { subst str. unfold rmc_block. reflexivity. }
  rewrite Hblock, Hrun. eexists. split; [reflexivity|].
  split; [now apply cstring_holding|].
  unfold rmc_block. cbn [app repeat].
  rewrite !size_app, !size_map_Some.
  rewrite !length_app, repeat_length. simpl length. lia.
Qed.

(** X13.  [stringrmc] removes every occurrence of [remove] from a
    string that fits [int], in place: it returns, the string of the block
    afterwards is the original string without those characters, in their
    order, and the block has the size it had. *)
Theorem stringrmc_removes_all :
  forall (str : buffer) (s : list ascii) (remove : ascii),
    cstring str = Ok s ->
    Z.of_nat (length s) <= Int.INT_MAX ->
    exists str' : buffer,
      Lib1.stringrmc str remove = Ok str'
      /\ cstring str' = Ok (filter (other_than remove) s)
      /\ size str' = size str.
Proof.
  intros str s remove Hs Hlen. now apply stringrmc_filters.
Qed.

Lemma stringrmc_removes_all_witness :
  exists str' : buffer,
    Lib1.stringrmc (holding (str "a-b--c-")) "-" = Ok str'
    /\ cstring str' = Ok (filter (other_than "-") (str "a-b--c-"))
    /\ size str' = size (holding (str "a-b--c-")).
Proof.
  apply (stringrmc_removes_all (holding (str "a-b--c-")) (str "a-b--c-") "-").
  - reflexivity.
  - unfold Int.INT_MAX. simpl. lia.
Defined.

End Stringrmc.

Section StringsAndFiles.

(** X14.  [stringrmlast] of [src/mycutils.c] returns only for the
    empty string, which it leaves alone; for every other string it copies
    the string with its terminator into [temps], a block of [strlen]
    cells, and the terminator is stored outside that block. *)
Theorem stringrmlast_outcome :
  forall (s : buffer) (l : list ascii),
    cstring s = Ok l ->
    Z.of_nat (length l) <= Int.PTRDIFF_MAX ->
    Lib1.stringrmlast s = if is_empty l then Ok s else Fault OutOfBounds.
Proof.
  intros s l Hs Hlen. unfold Lib1.stringrmlast, strlen.
  rewrite Hs. cbn [bind].
  destruct l as [|x l]; [reflexivity|].
  cbn [is_empty].
  destruct (Z.gtb_spec (Z.of_nat (length (x :: l))) 0);
    [|simpl length in *; lia].
  unfold strcpy. rewrite Hs. cbn [bind].
  rewrite malloc_small by lia. rewrite Nat2Z.id.
  pose proof (store_bytes_overrun (x :: l) [] NUL) as Hover.
  change (store_bytes (repeat None (length (x :: l))) 0 ((x :: l) ++ [NUL])
          = Fault OutOfBounds) in Hover.
  rewrite Hover. reflexivity.
Qed.

Lemma stringrmlast_outcome_witness :
  Lib1.stringrmlast (holding (str "ab"))
  = if is_empty (str "ab") then Ok (holding (str "ab"))
    else Fault OutOfBounds.
Proof.
  apply (stringrmlast_outcome (holding (str "ab")) (str "ab")).
  - reflexivity.
  - unfold Int.PTRDIFF_MAX. simpl. lia.
Defined.

(** X15.  [sfmt] and [stringf] with the format [%s] copy a string:
    whatever the size of the block the string sits in, the result of
    [sfmt] is a block of exactly [strlen + 1] cells that holds the same
    string, for every string that fits [int].  [stringf] returns the same
    block except for a string of exactly [INT_MAX] characters, where its
    [int] addition of the terminator overflows. *)
Theorem sfmt_copies_string :
  forall (b : buffer) (s : list ascii),
    cstring b = Ok s ->
    Z.of_nat (length s) <= Int.INT_MAX ->
    Lib2.sfmt "%s" [ArgS b] = Ok (holding s)
    /\ Lib1.stringf "%s" [ArgS b]
       = (if Z.of_nat (length s) =? Int.INT_MAX then Fault SignedOverflow
          else Ok (holding s))
    /\ cstring (holding s) = Ok s
    /\ size (holding s) = Z.of_nat (length s) + 1.
Proof.
  intros b s Hs Hlen.
  destruct (cstring_ok _ _ Hs) as [Hnul _].
  assert (Hf : format_alloc "%s" [ArgS b] = Ok (holding s)).
  { apply format_alloc_fits; [|assumption]. now rewrite format_s. }
  split; [exact Hf|]. split; [|split].
  - rewrite (stringf_cases _ _ s) by now rewrite format_s.
    now rewrite Hf.
  - now apply cstring_holding_exact.
  - unfold holding. rewrite size_map_Some, length_app. simpl length. lia.
Qed.

Lemma sfmt_copies_string_witness :
  Lib2.sfmt "%s" [ArgS (holding (str "ab") ++ [None; None])]
  = Ok (holding (str "ab"))
  /\ Lib1.stringf "%s" [ArgS (holding (str "ab") ++ [None; None])]
     = (if Z.of_nat (length (str "ab")) =? Int.INT_MAX
        then Fault SignedOverflow else Ok (holding (str "ab")))
  /\ cstring (holding (str "ab")) = Ok (str "ab")
  /\ size (holding (str "ab")) = Z.of_nat (length (str "ab")) + 1.
Proof.
  apply (sfmt_copies_string (holding (str "ab") ++ [None; None]) (str "ab")).
  - reflexivity.
  - unfold Int.INT_MAX. simpl. lia.
Defined.

(** X16.  [sfmt] and [stringf] with the format [%s%c], as [scans] uses
    it: [sfmt] returns the block that holds the string, the character and
    the terminator; for a character other than NUL the string it holds is
    one character longer, for NUL the block grows by the byte but the
    string it holds stays the same.  [stringf] returns the same block
    except when string and character are exactly [INT_MAX] bytes, where
    its [int] addition of the terminator overflows. *)
Theorem sfmt_appends_char :
  forall (b : buffer) (s : list ascii) (c : ascii),
    cstring b = Ok s ->
    Z.of_nat (length s) + 1 <= Int.INT_MAX ->
    Lib2.sfmt "%s%c" [ArgS b; ArgC c] = Ok (holding (s ++ [c]))
    /\ Lib1.stringf "%s%c" [ArgS b; ArgC c]
       = (if Z.of_nat (length s) + 1 =? Int.INT_MAX
          then Fault SignedOverflow else Ok (holding (s ++ [c])))
    /\ cstring (holding (s ++ [c]))
       = Ok (if Ascii.eqb c NUL then s else s ++ [c]).
Proof.
  intros b s c Hs Hlen.
  destruct (cstring_ok _ _ Hs) as [Hnul _].
  assert (Hf : format_alloc "%s%c" [ArgS b; ArgC c] = Ok (holding (s ++ [c]))).
  { apply format_alloc_fits.
    - rewrite format_s_c, Hs. reflexivity.
    - rewrite length_app. simpl length. lia. }
  split; [exact Hf|]. split.
  - rewrite (stringf_cases _ _ (s ++ [c]))
      by (rewrite format_s_c, Hs; reflexivity).
    rewrite length_app, Hf. simpl length.
    replace (Z.of_nat (length s + 1)) with (Z.of_nat (length s) + 1) by lia.
    reflexivity.
  - destruct (Ascii.eqb_spec c NUL) as [->|Hc].
    + unfold holding. rewrite map_app. now apply cstring_holding.
    + apply cstring_holding_exact. intros H0.
      apply in_app_or in H0. destruct H0 as [H0|[H0|[]]]; auto.
Qed.

Lemma sfmt_appends_char_witness :
  Lib2.sfmt "%s%c" [ArgS (holding (str "ab")); ArgC "c"]
  = Ok (holding (str "ab" ++ ["c"%char]))
  /\ Lib1.stringf "%s%c" [ArgS (holding (str "ab")); ArgC "c"]
     = (if Z.of_nat (length (str "ab")) + 1 =? Int.INT_MAX
        then Fault SignedOverflow else Ok (holding (str "ab" ++ ["c"%char])))
  /\ cstring (holding (str "ab" ++ ["c"%char]))
     = Ok (if Ascii.eqb "c" NUL then str "ab" else str "ab" ++ ["c"%char]).
Proof.
  apply (sfmt_appends_char (holding (str "ab")) (str "ab") "c").
  - reflexivity.
  - unfold Int.INT_MAX. simpl. lia.
Defined.

(** The loop of [writefss] over the rest of the string. *)
Lemma writefss_loop_rest (str0 : buffer) (s : list ascii) :
  cstring str0 = Ok s ->
  forall (t2 t1 fs : list ascii),
    s = t1 ++ t2 ->
    writefss_loop (map Z.of_nat (seq (length t1) (length t2))) fs str0
    = Ok (fs ++ t2).
Proof.
  intros Hs.
  induction t2 as [|x t2 IH]; intros t1 fs Hsplit.
  - cbn. now rewrite app_nil_r.
  - cbn [length seq map writefss_loop].
    rewrite (load_string str0 s _ Hs)
      by (subst s; rewrite length_app; simpl length; lia).
    cbn [bind]. rewrite Nat2Z.id.
    assert (Hx : nth (length t1) s NUL = x)
      by (subst s; rewrite app_nth2, Nat.sub_diag by lia; reflexivity).
    rewrite Hx. unfold writefsc.
    specialize (IH (t1 ++ [x]) (fs ++ [x])).
    rewrite length_app in IH. simpl length in IH.
    replace (length t1 + 1)%nat with (S (length t1)) in IH by lia.
    rewrite IH by (subst s; now rewrite <- app_assoc).
    now rewrite <- app_assoc.
Qed.

(** X17.  [writefss] writes the characters of the string, in order and
    without the terminator, after what the stream already holds (for a
    string that fits [int], the type of its counter). *)
Theorem writefss_appends_string :
  forall (fs : list ascii) (str0 : buffer) (s : list ascii),
    cstring str0 = Ok s ->
    Z.of_nat (length s) <= Int.INT_MAX ->
    writefss fs str0 = Ok (fs ++ s).
Proof.
  intros fs str0 s Hs Hlen. unfold writefss, strlen.
  rewrite Hs. cbn [bind].
  rewrite Z.min_l by lia. unfold indices. rewrite Nat2Z.id.
  pose proof (writefss_loop_rest str0 s Hs s [] fs eq_refl) as Hloop.
  cbn [length] in Hloop. rewrite Hloop. cbn [bind].
  destruct (Z.ltb_spec Int.INT_MAX (Z.of_nat (length s))); [lia|reflexivity].
Qed.

Lemma writefss_appends_string_witness :
  writefss (str "Frame ") (holding (str "number 1"))
  = Ok (str "Frame " ++ str "number 1").
Proof.
  apply (writefss_appends_string (str "Frame ") (holding (str "number 1"))
           (str "number 1")).
  - reflexivity.
  - unfold Int.INT_MAX. simpl. lia.
Defined.

(** X18.  [readfsc] stores what [fgetc] returns in a [char] and
    compares that [char] with [EOF].  In both copies every byte but 255 is
    a success, whatever [ferror] would say; the byte 255, which as a
    signed [char] is -1, is handled exactly like the end of the file: end
    of file is reported when no stream error is pending. *)
Theorem readfsc_byte_255_is_end_of_file :
  forall (c : ascii) (ferr : bool) (cal : calendar) (reason : string),
    Lib1.readfsc (GotByte c) ferr cal reason
    = (if Ascii.eqb c "255" then Lib1.readfsc GotEOF ferr cal reason
       else Ok (true, c))
    /\ Lib2.readfsc (GotByte c) ferr cal reason
       = (if Ascii.eqb c "255" then Lib2.readfsc GotEOF ferr cal reason
          else Ok (true, c))
    /\ Lib1.readfsc GotEOF false cal reason = Ok (false, "255"%char)
    /\ Lib2.readfsc GotEOF false cal reason = Ok (false, "255"%char).
Proof.
  intros c ferr cal reason.
  assert (Hc : (char_value c =? EOF) = Ascii.eqb c "255").
  { destruct c as [[] [] [] [] [] [] [] []]; reflexivity. }
  unfold Lib1.readfsc, Lib2.readfsc. cbn [char_of_fgetc].
  rewrite Hc.
  split; [destruct (Ascii.eqb_spec c "255") as [->|]; reflexivity|].
  split; [destruct (Ascii.eqb_spec c "255") as [->|]; reflexivity|].
  split; reflexivity.
Qed.

End StringsAndFiles.

(** * The editor of [src/main.c] against its description *)

Section EditorRuns.

Variable prompt : buffer.
Variable p : list ascii.
Hypothesis prompt_string : cstring prompt = Ok p.

Lemma scanc_nowait_keeps_stdout (e : syscalls) (w : world) :
  w_stdout (snd (scanc_nowait e w)) = w_stdout w.
Proof.
  unfold scanc_nowait.
  destruct (tcgetattr_ok e), (tcsetattr_now_ok e), (read_res e),
    (tcsetattr_drain_ok e); reflexivity.
Qed.

Lemma key_logs_nothing (c : ascii) (w : world) :
  w_stderr (snd (scanc_nowait (key c) w)) = w_stderr w.
Proof. reflexivity. Qed.

Lemma type_key_length (line : list ascii) (c : ascii) :
  (length (type_key line c) <= length line + 1)%nat.
Proof.
  unfold type_key. destruct (Ascii.eqb c BACKSPACE).
  - destruct line as [|a l]; [simpl; lia|].
    destruct (exists_last (l := a :: l)) as (t & c0 & E); [discriminate|].
    rewrite E, removelast_last, length_app. simpl. lia.
  - rewrite length_app. simpl. lia.
Qed.

(** The display of one iteration. *)
Lemma fprintf_clear_line (line : list ascii) :
  ~ In NUL line ->
  Z.of_nat (length p) + Z.of_nat (length line) <= Int.INT_MAX ->
  format_show "%s%s" [ArgS prompt; ArgS (holding line)]
  = Ok (p ++ line).
Proof.
  intros Hnul Hlen.
  rewrite (format_show_s_s prompt (holding line) p line prompt_string
             (cstring_holding_exact line Hnul)).
  rewrite length_app.
  destruct (Z.leb_spec (Z.of_nat (length p + length line)) Int.INT_MAX);
    [reflexivity|lia].
Qed.

(** One key that the editor handles like its description. *)
Lemma dispatch_typable_key (c : ascii) (buf : buffer) (line : list ascii) :
  ~ In NUL line ->
  Z.of_nat (length line) + 1 <= Int.INT_MAX ->
  typable line [c] = true ->
  Lib2.dispatch c buf (holding line)
  = Ok (if Ascii.eqb c BACKSPACE then buf else holding (type_key line c),
        holding (type_key line c))
    /\ ~ In NUL (type_key line c).
Proof.
  intros Hnul Hlen Hty. cbn [typable] in Hty.
  rewrite andb_true_r in Hty.
  apply andb_true_iff in Hty. destruct Hty as [Hty Hbs].
  apply andb_true_iff in Hty. destruct Hty as [Hnl Hnn].
  apply negb_true_iff in Hnl, Hnn.
  unfold type_key.
  destruct (Ascii.eqb_spec c BACKSPACE) as [->|Hne].
  - cbn [negb orb] in Hbs. apply negb_true_iff in Hbs.
    destruct (exists_last (l := line)) as (t & c0 & ->);
      [intros ->; discriminate Hbs|].
    rewrite removelast_last.
    rewrite dispatch_backspace_last;
      [|assumption|rewrite length_app in *; simpl length in *; lia].
    split; [reflexivity|].
    intros Hin. apply Hnul, in_or_app. now left.
  - destruct (Ascii.eqb_spec c NEWLINE) as [|Hnl']; [discriminate|].
    destruct (Ascii.eqb_spec c NUL) as [|Hnn']; [discriminate|].
    rewrite (dispatch_default c buf (holding line) line Hne Hnl'
               (cstring_holding_exact line Hnul)).
    destruct (Z.leb_spec (Z.of_nat (length line) + 1) Int.INT_MAX); [|lia].
    destruct (Ascii.eqb_spec c NUL); [contradiction|].
    split; [reflexivity|].
    intros Hin. apply in_app_or in Hin. destruct Hin as [Hin|[Hin|[]]]; auto.
Qed.

Lemma typable_cons (line : list ascii) (c : ascii) (ks : list ascii) :
  typable line (c :: ks) = true ->
  typable line [c] = true /\ typable (type_key line c) ks = true
  /\ c <> NEWLINE.
Proof.
  cbn [typable]. rewrite andb_true_r. intros H.
  apply andb_true_iff in H. destruct H as [H1 H2].
  split; [exact H1|]. split; [exact H2|].
  apply andb_true_iff in H1. destruct H1 as [H1 _].
  apply andb_true_iff in H1. destruct H1 as [H1 _].
  apply negb_true_iff in H1.
  destruct (Ascii.eqb_spec c NEWLINE); [discriminate|assumption].
Qed.

(** A run of typable keys: the loop reaches the state its description
    gives, having shown the line before every key. *)
Lemma scans_loop_typed (ks : list ascii) :
  forall (line : list ascii) (buf : buffer) (w : world),
    ~ In NUL line ->
    typable line ks = true ->
    Z.of_nat (length p) + Z.of_nat (length line) + Z.of_nat (length ks)
    <= Int.INT_MAX ->
    exists (buf' : buffer) (w' : world),
      (forall tail,
          Lib2.scans_loop prompt (keys ks ++ tail) buf (holding line) w
          = Lib2.scans_loop prompt tail buf' (holding (line_after line ks)) w')
      /\ ~ In NUL (line_after line ks)
      /\ (length (line_after line ks) <= length line + length ks)%nat
      /\ w_stdout w' = w_stdout w ++ screen p (history line ks)
      /\ w_stderr w' = w_stderr w
      /\ (ks = [] -> buf' = buf)
      /\ (forall ks0 c, ks = ks0 ++ [c] -> c <> BACKSPACE ->
          buf' = holding (line_after line ks)).
Proof.
  induction ks as [|c ks IH]; intros line buf w Hnul Hty Hlen.
  - exists buf, w. unfold screen.
    cbn [line_after fold_left history map concat length].
    rewrite app_nil_r.
    repeat split; try reflexivity; try assumption; try lia.
    intros ks0 c H. destruct ks0; discriminate H.
  - destruct (typable_cons _ _ _ Hty) as (Hc & Hks & Hnl).
    simpl length in Hlen.
    destruct (dispatch_typable_key c buf line Hnul ltac:(lia) Hc)
      as [Hd Hnul'].
    pose proof (type_key_length line c) as Hgrow.
    set (buf1 := if Ascii.eqb c BACKSPACE then buf
                 else holding (type_key line c)) in *.
    set (w1 := snd (scanc_nowait (key c) (show (p ++ line) w))).
    destruct (IH (type_key line c) buf1 w1 Hnul' Hks ltac:(lia))
      as (buf' & w' & Hrun & Hn & Hl & Hout & Herr & Hnil & Hlast).
    exists buf', w'.
    split; [|split; [|split; [|split; [|split; [|split]]]]].
    + intros tail. cbn [keys map app].
      rewrite scans_loop_step.
      rewrite fprintf_clear_line by (assumption || lia). cbn [bind].
      change (delivered (key c)) with c.
      rewrite Hd. cbn [bind].
      destruct (Ascii.eqb_spec c NEWLINE); [contradiction|].
      apply Hrun.
    + exact Hn.
    + change (line_after line (c :: ks))
        with (line_after (type_key line c) ks).
      simpl length. lia.
    + rewrite Hout. unfold w1.
      rewrite scanc_nowait_keeps_stdout. cbn [show w_stdout history].
      rewrite shown_display by (rewrite length_app; lia).
      unfold screen. cbn [map concat].
      now rewrite <- app_assoc.
    + rewrite Herr. reflexivity.
    + discriminate.
    + intros ks0 c' Hsplit Hc'.
      destruct ks as [|k ks].
      * destruct ks0 as [|? [|? ?]]; try discriminate Hsplit.
        injection Hsplit as <-.
        rewrite (Hnil eq_refl). unfold buf1.
        destruct (Ascii.eqb_spec c BACKSPACE); [contradiction|reflexivity].
      * destruct ks0 as [|c0 ks0]; [discriminate Hsplit|].
        injection Hsplit as _ Hsplit.
        apply (Hlast ks0 c' Hsplit Hc').
Qed.

Lemma keys_app (a b : list ascii) : keys (a ++ b) = keys a ++ keys b.
Proof. apply map_app. Qed.

Lemma history_app (line : list ascii) (ks : list ascii) (c : ascii) :
  history line (ks ++ [c]) = history line ks ++ [line_after line ks].
Proof.
  revert line. induction ks as [|k ks IH]; intros line; [reflexivity|].
  cbn [app history line_after fold_left]. now rewrite IH.
Qed.

End EditorRuns.

Section EditorResults.

(** X19.  The editor of [src/main.c] meets its description on every
    line typed with keys other than newline and NUL, without a backspace on
    an empty line, and ended by a key other than backspace: after Enter,
    [scans] returns a block of exactly the right size that holds the line
    obtained by appending each key and removing the last character at each
    backspace, and nothing is written to [stderr]. *)
Theorem scans_returns_typed_line :
  forall (prompt : buffer) (p ks : list ascii) (c : ascii) (w : world),
    cstring prompt = Ok p ->
    typable [] (ks ++ [c]) = true ->
    Ascii.eqb c BACKSPACE = false ->
    Z.of_nat (length p) + Z.of_nat (length ks) + 1 <= Int.INT_MAX ->
    exists w' : world,
      Lib2.scans prompt (keys (ks ++ [c; NEWLINE])) w
      = Ok (holding (line_after [] (ks ++ [c])), w')
      /\ w_stderr w' = w_stderr w.
Proof.
  intros prompt p ks c w Hp Hty Hc Hlen.
  destruct (scans_loop_typed prompt p Hp (ks ++ [c]) [] (malloc 1) w)
    as (buf' & w' & Hrun & Hn & Hl & _ & Herr & _ & Hlast);
    [intros []|assumption|rewrite length_app; simpl length; lia|].
  rewrite length_app in Hl. simpl length in Hl.
  rewrite (Hlast ks c eq_refl) in Hrun
    by (intros ->; discriminate Hc).
  eexists. split.
  - rewrite scans_unfold.
    replace (ks ++ [c; NEWLINE]) with ((ks ++ [c]) ++ [NEWLINE])
      by (rewrite <- app_assoc; reflexivity).
    rewrite keys_app, Hrun. cbn [keys map].
    rewrite scans_loop_step.
    rewrite (fprintf_clear_line prompt p Hp) by (assumption || lia).
    cbn [bind]. change (delivered (key NEWLINE)) with NEWLINE.
    rewrite dispatch_newline. reflexivity.
  - rewrite key_logs_nothing. cbn [show w_stderr]. exact Herr.
Qed.

Lemma scans_returns_typed_line_witness :
  exists w' : world,
    Lib2.scans the_prompt
      (keys (["a"; "b"; BACKSPACE; BACKSPACE; "c"]%char ++ ["d"%char; NEWLINE]))
      world0
    = Ok (holding
            (line_after []
               (["a"; "b"; BACKSPACE; BACKSPACE; "c"]%char ++ ["d"%char])),
          w')
    /\ w_stderr w' = w_stderr world0.
Proof.
  apply (scans_returns_typed_line the_prompt
           (str "Write a name for the file: ")
           ["a"; "b"; BACKSPACE; BACKSPACE; "c"]%char "d"%char world0).
  - reflexivity.
  - reflexivity.
  - reflexivity.
  - unfold Int.INT_MAX. simpl. lia.
Defined.

(** X20.  What the editor does to the screen: during a session of
    typable keys ended by Enter, [scans] makes, before each key is read
    (the newline included), the six output calls of [fprintf_clear] for the
    prompt followed by the line as typed so far -- the commands [tput el],
    [tput el1] and [tput cub] with the length and one, the line printed
    with a newline, the commands [tput cuu 1] and [tput cuf] with the
    length -- and no other output call. *)
Theorem scans_shows_every_line :
  forall (prompt : buffer) (p ks : list ascii) (w : world),
    cstring prompt = Ok p ->
    typable [] ks = true ->
    Z.of_nat (length p) + Z.of_nat (length ks) + 1 <= Int.INT_MAX ->
    exists (buf : buffer) (w' : world),
      Lib2.scans prompt (keys (ks ++ [NEWLINE])) w = Ok (buf, w')
      /\ w_stdout w'
         = w_stdout w ++ screen p (history [] (ks ++ [NEWLINE])).
Proof.
  intros prompt p ks w Hp Hty Hlen.
  destruct (scans_loop_typed prompt p Hp ks [] (malloc 1) w)
    as (buf' & w' & Hrun & Hn & Hl & Hout & _);
    [intros []|assumption|simpl length; lia|].
  simpl length in Hl.
  exists buf'. eexists. split.
  - rewrite scans_unfold, keys_app, Hrun. cbn [keys map].
    rewrite scans_loop_step.
    rewrite (fprintf_clear_line prompt p Hp) by (assumption || lia).
    cbn [bind]. change (delivered (key NEWLINE)) with NEWLINE.
    rewrite dispatch_newline. reflexivity.
  - rewrite scanc_nowait_keeps_stdout. cbn [show w_stdout].
    rewrite shown_display by (rewrite length_app; lia).
    rewrite Hout, history_app. unfold screen.
    rewrite map_app, concat_app. cbn [map concat].
    now rewrite app_nil_r, <- app_assoc.
Qed.

Lemma scans_shows_every_line_witness :
  exists (buf : buffer) (w' : world),
    Lib2.scans the_prompt (keys (["a"; "b"; BACKSPACE]%char ++ [NEWLINE]))
      world0
    = Ok (buf, w')
    /\ w_stdout w'
       = w_stdout world0
         ++ screen (str "Write a name for the file: ")
              (history [] (["a"; "b"; BACKSPACE]%char ++ [NEWLINE])).
Proof.
  apply (scans_shows_every_line the_prompt
           (str "Write a name for the file: ")
           ["a"; "b"; BACKSPACE]%char world0).
  - reflexivity.
  - reflexivity.
  - unfold Int.INT_MAX. simpl. lia.
Defined.

(** X21.  A backspace is fatal whenever the line is empty, not only as
    the first key: after any typable keys that leave the line empty (for
    instance a character and a backspace), the next backspace makes
    [sdelelem] store outside its block, whatever follows. *)
Theorem backspace_on_emptied_line :
  forall (prompt : buffer) (p ks : list ascii) (rest : list syscalls)
         (w : world),
    cstring prompt = Ok p ->
    typable [] ks = true ->
    is_empty (line_after [] ks) = true ->
    Z.of_nat (length p) + Z.of_nat (length ks) <= Int.INT_MAX ->
    Lib2.scans prompt (keys ks ++ key BACKSPACE :: rest) w
    = Fault OutOfBounds.
Proof.
  intros prompt p ks rest w Hp Hty Hempty Hlen.
  destruct (scans_loop_typed prompt p Hp ks [] (malloc 1) w)
    as (buf' & w' & Hrun & Hn & Hl & _);
    [intros []|assumption|simpl length; lia|].
  destruct (line_after [] ks) as [|x l] eqn:E; [|discriminate Hempty].
  rewrite scans_unfold, Hrun, scans_loop_step.
  rewrite (fprintf_clear_line prompt p Hp) by (assumption || simpl; lia).
  cbn [bind]. change (delivered (key BACKSPACE)) with BACKSPACE.
  rewrite dispatch_backspace_empty by reflexivity. reflexivity.
Qed.

Lemma backspace_on_emptied_line_witness :
  Lib2.scans the_prompt
    (keys ["a"; BACKSPACE]%char ++ key BACKSPACE :: keys ["x"; NEWLINE]%char)
    world0
  = Fault OutOfBounds.
Proof.
  apply (backspace_on_emptied_line the_prompt
           (str "Write a name for the file: ") ["a"; BACKSPACE]%char
           (keys ["x"; NEWLINE]%char) world0).
  - reflexivity.
  - reflexivity.
  - reflexivity.
  - unfold Int.INT_MAX. simpl. lia.
Defined.

Lemma scans_loop_waits (prompt : buffer) (script : list syscalls) :
  no_enter script = true ->
  forall (buf btemp : buffer) (w : world) r,
    Lib2.scans_loop prompt script buf btemp w <> Ok r.
Proof.
  induction script as [|e script IH]; intros Hno buf btemp w r.
  - cbn [Lib2.scans_loop]. rewrite fprintf_clear_shows.
    destruct (format_show "%s%s" [ArgS prompt; ArgS btemp]);
      discriminate.
  - unfold no_enter in Hno. cbn [forallb] in Hno.
    apply andb_true_iff in Hno. destruct Hno as [He Hno].
    apply negb_true_iff in He.
    rewrite scans_loop_step.
    destruct (format_show "%s%s" [ArgS prompt; ArgS btemp]);
      try discriminate.
    cbn [bind].
    destruct (Lib2.dispatch (delivered e) buf btemp) as [[b1 b2]| | | |];
      try discriminate.
    cbn [bind]. rewrite He. apply IH. exact Hno.
Qed.

(** X22.  [scans] returns on a newline only: on a script in which no
    call of [scanc_nowait] delivers one, whatever else happens (bytes, end
    of file, failed reads, failed terminal calls), it never returns to its
    caller. *)
Theorem scans_returns_only_on_newline :
  forall (prompt : buffer) (script : list syscalls) (w : world)
         (r : buffer * world),
    no_enter script = true ->
    Lib2.scans prompt script w <> Ok r.
Proof.
  intros prompt script w r Hno. rewrite scans_unfold.
  pose proof (scans_loop_waits prompt script Hno (malloc 1) (holding []) w)
    as Hloop.
  destruct (Lib2.scans_loop prompt script (malloc 1) (holding []) w)
    as [[[b1 b2] w1]| | | |]; try discriminate.
  exfalso. now apply (Hloop (b1, b2, w1)).
Qed.

Lemma scans_returns_only_on_newline_witness :
  Lib2.scans the_prompt
    [key "a"; mk_syscalls true true ReadEOF true;
     mk_syscalls false false ReadError false]
    world0
  <> Ok (holding (str "a"), world0).
Proof.
  apply (scans_returns_only_on_newline the_prompt
           [key "a"; mk_syscalls true true ReadEOF true;
            mk_syscalls false false ReadError false]
           world0 (holding (str "a"), world0)).
  reflexivity.
Defined.

Lemma flag_set_after_lor (x : Z) :
  Z.land (Z.lor (Z.lor x ICANON) ECHO) ICANON = ICANON
  /\ Z.land (Z.lor (Z.lor x ICANON) ECHO) ECHO = ECHO.
Proof.
  split; apply Z.bits_inj'; intros n Hn;
    rewrite Z.land_spec, !Z.lor_spec;
    destruct (Z.testbit x n), (Z.testbit ICANON n), (Z.testbit ECHO n);
    reflexivity.
Qed.

Lemma scans_loop_leaves_flags (prompt : buffer) (script : list syscalls) :
  terminal_calls_ok script = true ->
  forall (buf btemp buf' btemp' : buffer) (w w' : world),
    Lib2.scans_loop prompt script buf btemp w = Ok (buf', btemp', w') ->
    Z.land (c_lflag (w_tty w')) ICANON = ICANON
    /\ Z.land (c_lflag (w_tty w')) ECHO = ECHO.
Proof.
  induction script as [|e script IH]; intros Hok buf btemp buf' btemp' w w' Hrun.
  - cbn [Lib2.scans_loop] in Hrun. rewrite fprintf_clear_shows in Hrun.
    destruct (format_show "%s%s" [ArgS prompt; ArgS btemp]);
      discriminate.
  - unfold terminal_calls_ok in Hok. cbn [forallb] in Hok.
    apply andb_true_iff in Hok. destruct Hok as [He Hok].
    apply andb_true_iff in He. destruct He as [Hget Hdrain].
    rewrite scans_loop_step in Hrun.
    destruct (format_show "%s%s" [ArgS prompt; ArgS btemp])
      as [line| | | |]; try discriminate.
    cbn [bind] in Hrun.
    destruct (Lib2.dispatch (delivered e) buf btemp) as [[b1 b2]| | | |];
      try discriminate.
    cbn [bind] in Hrun.
    destruct (Ascii.eqb (delivered e) NEWLINE).
    + injection Hrun as _ _ <-.
      rewrite scanc_nowait_settings by assumption.
      cbn [set_lflag c_lflag]. apply flag_set_after_lor.
    + apply (IH Hok _ _ _ _ _ _ Hrun).
Qed.

(** X23.  Whenever [scans] returns, and the [tcgetattr] and last
    [tcsetattr] of its calls succeeded, the terminal is left in canonical
    mode with echo, whatever its settings were before and whatever was
    typed. *)
Theorem scans_leaves_terminal_canonical :
  forall (prompt : buffer) (script : list syscalls) (w w' : world)
         (buf : buffer),
    terminal_calls_ok script = true ->
    Lib2.scans prompt script w = Ok (buf, w') ->
    Z.land (c_lflag (w_tty w')) ICANON = ICANON
    /\ Z.land (c_lflag (w_tty w')) ECHO = ECHO.
Proof.
  intros prompt script w w' buf Hok Hrun. rewrite scans_unfold in Hrun.
  destruct (Lib2.scans_loop prompt script (malloc 1) (holding []) w)
    as [[[b1 b2] w1]| | | |] eqn:Hloop; try discriminate.
  cbn [bind] in Hrun. injection Hrun as _ <-.
  apply (scans_loop_leaves_flags prompt script Hok _ _ _ _ _ _ Hloop).
Qed.

Lemma scans_leaves_terminal_canonical_witness :
  exists w' : world,
    Z.land (c_lflag (w_tty w')) ICANON = ICANON
    /\ Z.land (c_lflag (w_tty w')) ECHO = ECHO.
Proof.
  eexists.
  eapply (scans_leaves_terminal_canonical the_prompt
            (keys ["a"; NEWLINE]%char)
            (mk_world (set_lflag cooked 35377) [] []) _ (holding (str "a"))).
  - reflexivity.
  - vm_compute. reflexivity.
Defined.



End EditorResults.

(** * Appending a character and removing it again *)

Section RoundTrips.

(** X24.  Appending a character with the format [%s%c] and removing it
    again gives the string back.  For a character other than NUL that does
    not occur in the string: [sdelchar] and [sdelelem] at the index of the
    new character return a block of exactly the size of the original string
    that holds it, and [stringrmc] leaves the original string in the block
    [stringf] built -- unless string and character are exactly [INT_MAX]
    bytes, where [stringf] overflows [int] before anything is built. *)
Theorem append_then_remove :
  forall (b : buffer) (s : list ascii) (c : ascii),
    cstring b = Ok s ->
    c <> NUL ->
    ~ In c s ->
    Z.of_nat (length s) + 1 <= Int.INT_MAX ->
    (b' <- Lib2.sfmt "%s%c" [ArgS b; ArgC c] ;; Lib2.sdelchar b' c)
    = Ok (holding s)
    /\ (b' <- Lib2.sfmt "%s%c" [ArgS b; ArgC c] ;;
        Lib2.sdelelem b' (Z.of_nat (length s)))
       = Ok (holding s)
    /\ if Z.of_nat (length s) + 1 =? Int.INT_MAX
       then (b' <- Lib1.stringf "%s%c" [ArgS b; ArgC c] ;;
             Lib1.stringrmc b' c)
            = Fault SignedOverflow
       else exists r : buffer,
         (b' <- Lib1.stringf "%s%c" [ArgS b; ArgC c] ;; Lib1.stringrmc b' c)
         = Ok r
         /\ cstring r = Ok s.
Proof.
  intros b s c Hs Hc Hno Hlen.
  destruct (cstring_ok _ _ Hs) as [Hnul _].
  assert (Hf : format_alloc "%s%c" [ArgS b; ArgC c] = Ok (holding (s ++ [c]))).
  { apply format_alloc_fits.
    - rewrite format_s_c, Hs. reflexivity.
    - rewrite length_app. simpl length. lia. }
  assert (Hsc : cstring (holding (s ++ [c])) = Ok (s ++ [c])).
  { apply cstring_holding_exact. intros H0.
    apply in_app_or in H0. destruct H0 as [H0|[H0|[]]]; auto. }
  assert (Hl : Z.of_nat (length (s ++ [c])) <= Int.INT_MAX)
    by (rewrite length_app; simpl length; lia).
  unfold Lib2.sfmt. rewrite Hf. cbn [bind].
  split; [|split].
  - now apply sdelchar_last_character.
  - rewrite (sdelelem_outcome _ _ _ Hsc Hl)
      by (unfold Int.INT_MAX in Hlen; lia).
    rewrite length_app. simpl length.
    replace (Z.of_nat (length s) =? Z.of_nat (length s + 1) - 1) with true
      by (symmetry; apply Z.eqb_eq; lia).
    now rewrite removelast_last.
  - rewrite (stringf_cases _ _ (s ++ [c]))
      by (rewrite format_s_c, Hs; reflexivity).
    rewrite length_app. simpl length.
    replace (Z.of_nat (length s + 1)) with (Z.of_nat (length s) + 1) by lia.
    destruct (Z.eqb_spec (Z.of_nat (length s) + 1) Int.INT_MAX);
      [reflexivity|].
    rewrite Hf. cbn [bind].
    destruct (stringrmc_filters _ _ c Hsc Hl) as (r & Hr & Hcs & _).
    exists r. split; [exact Hr|]. rewrite Hcs.
    rewrite filter_app, filter_absent by assumption.
    rewrite filter_cons_removed. cbn [filter]. now rewrite app_nil_r.
Qed.

Lemma append_then_remove_witness :
  (b' <- Lib2.sfmt "%s%c" [ArgS (holding (str "Mon Nov  2")); ArgC NEWLINE] ;;
   Lib2.sdelchar b' NEWLINE)
  = Ok (holding (str "Mon Nov  2"))
  /\ (b' <- Lib2.sfmt "%s%c" [ArgS (holding (str "Mon Nov  2")); ArgC NEWLINE] ;;
      Lib2.sdelelem b' (Z.of_nat (length (str "Mon Nov  2"))))
     = Ok (holding (str "Mon Nov  2"))
  /\ if Z.of_nat (length (str "Mon Nov  2")) + 1 =? Int.INT_MAX
     then (b' <- Lib1.stringf "%s%c"
                   [ArgS (holding (str "Mon Nov  2")); ArgC NEWLINE] ;;
           Lib1.stringrmc b' NEWLINE)
          = Fault SignedOverflow
     else exists r : buffer,
       (b' <- Lib1.stringf "%s%c"
                [ArgS (holding (str "Mon Nov  2")); ArgC NEWLINE] ;;
        Lib1.stringrmc b' NEWLINE)
       = Ok r
       /\ cstring r = Ok (str "Mon Nov  2").
Proof.
  apply (append_then_remove (holding (str "Mon Nov  2")) (str "Mon Nov  2")
           NEWLINE).
  - reflexivity.
  - discriminate.
  - simpl. intuition discriminate.
  - unfold Int.INT_MAX. simpl. lia.
Defined.

End RoundTrips.

(** * The editor of [src/mycutils.c] *)

Section OlderEditorResults.

(** X25.  [scans] of [src/mycutils.c] has no defined run: [btemp] is
    allocated and shown by [promptf] before anything is stored in it, so
    the first thing the function does is to read an indeterminate byte,
    for every prompt, every key sequence and every state of the
    terminal. *)
Theorem older_scans_has_no_defined_run :
  forall (prompt : buffer) (p : list ascii) (script : list syscalls)
         (w : world),
    cstring prompt = Ok p ->
    Lib1.scans prompt script w = Fault Indeterminate.
Proof.
  intros prompt p script w Hp.
  now apply (older_scans_reads_unwritten_btemp prompt p).
Qed.

Lemma older_scans_has_no_defined_run_witness :
  Lib1.scans the_prompt (keys ["a"; NEWLINE]%char) world0
  = Fault Indeterminate.
Proof.
  apply (older_scans_has_no_defined_run the_prompt
           (str "Write a name for the file: ") (keys ["a"; NEWLINE]%char)
           world0).
  reflexivity.
Defined.

(** X26.  The switch of [scans] in [src/mycutils.c], were [btemp] a
    string: every key other than backspace and newline is appended by
    [stringf], and the result is copied with [strcpy] into a block of
    [strlen] cells, one too few for its terminator, so no such key can be
    typed without a store outside the block (or, on a line of
    [INT_MAX - 1] characters, without the [int] overflow of [stringf]). *)
Theorem older_scans_cannot_take_a_character :
  forall (c : ascii) (buf btemp : buffer) (s : list ascii),
    c <> BACKSPACE -> c <> NEWLINE ->
    cstring btemp = Ok s ->
    Z.of_nat (length s) + 1 <= Int.INT_MAX ->
    Lib1.dispatch c buf btemp
    = Fault (if Z.of_nat (length s) + 1 =? Int.INT_MAX then SignedOverflow
             else OutOfBounds).
Proof.
  intros c buf btemp s Hbs Hnl Hs Hlen.
  now apply (older_default_branch_overruns c buf btemp s).
Qed.

Lemma older_scans_cannot_take_a_character_witness :
  Lib1.dispatch "a" (malloc 1) (holding []) = Fault OutOfBounds.
Proof.
  apply (older_scans_cannot_take_a_character "a" (malloc 1) (holding []) []).
  - discriminate.
  - discriminate.
  - reflexivity.
  - unfold Int.INT_MAX. simpl. lia.
Defined.

End OlderEditorResults.
